(** * IPL dashboard: the analytics computed by [app.py]

    A shallow embedding of the computations of [src/app.py] (the match
    preprocessor, the team series, the rolling mean, the outlier mask, the
    trend prediction and the player scores) and the properties the
    specification states about them.

    Numbers.  The runs columns are [int64] columns of a pandas frame: they
    are integers of [Z] and the one arithmetic operation the script applies
    to them as integers (the subtraction and [abs] of the margin) is written
    with its 64-bit wrap-around.  Every other number of the script is a
    binary64 float.  The outlier mask of lines 126-127, a strict
    comparison of a computed quotient with 2, is embedded on binary64
    itself, operation by operation.  The other float computations are
    embedded in exact arithmetic (rationals of [Q]; reals of [R] where a
    square root is taken), extended with the special values a float
    division by zero produces ([inf], [-inf], [NaN]); their rounding is
    not modelled. *)

From Stdlib Require Import Floats.
From Stdlib Require Import ZArith List String Ascii Bool Lia.
From Stdlib Require Import Permutation Sorted.
From Stdlib Require Import QArith Qabs Lqa.
From Stdlib Require Import Reals Lra.
Import ListNotations.

Open Scope Z_scope.

(* ================================================================= *)
(** ** Part I: the program *)
(* ================================================================= *)

(** *** 64-bit integers of the runs columns *)

Definition int64_min : Z := - 2 ^ 63.
Definition int64_max : Z := 2 ^ 63 - 1.

Definition in_int64 (z : Z) : Prop := int64_min <= z <= int64_max.

(** Two's complement wrap-around of a mathematical integer. *)
Definition wrap64 (z : Z) : Z := (z + 2 ^ 63) mod 2 ^ 64 - 2 ^ 63.

Definition sub64 (a b : Z) : Z := wrap64 (a - b).

(** [Series.abs()] on an int64 column ([abs] of the least value wraps to
    itself). *)
Definition abs64 (a : Z) : Z := wrap64 (Z.abs a).

(** *** The match table (lines 51-62) *)

Record MatchRecord : Type := mkMatch {
  match_id : Z;
  date : Z;              (* datetime64[ns]: nanoseconds since the epoch *)
  team1 : string;
  team2 : string;
  venue : string;
  runs_team1 : Z;
  runs_team2 : Z
}.

(** The runs of the data model: non-negative integers that fit the column. *)
Definition valid_runs (r : MatchRecord) : Prop :=
  0 <= runs_team1 r <= int64_max /\ 0 <= runs_team2 r <= int64_max.

(** Line 61:
    [lambda r: r["team1"] if r["runs_team1"] > r["runs_team2"] else r["team2"]] *)
Definition winner (r : MatchRecord) : string :=
  if runs_team1 r >? runs_team2 r then team1 r else team2 r.

(** Line 62: [(df["runs_team1"] - df["runs_team2"]).abs()] *)
Definition margin (r : MatchRecord) : Z :=
  abs64 (sub64 (runs_team1 r) (runs_team2 r)).

(** The frame after line 62: every row with its two derived fields. *)
Record DerivedRecord : Type := mkDerived {
  base : MatchRecord;
  d_winner : string;
  d_margin : Z
}.

Definition add_calculated_fields (df : list MatchRecord) : list DerivedRecord :=
  map (fun r => mkDerived r (winner r) (margin r)) df.

(** *** The frame as the script receives it, and the validation gate
        (lines 55-62)

    The frame is the one line 52 leaves, its column names stripped and
    lower-cased.  Before the gate nothing else is known of it: a column
    may be absent and a runs column may hold text.  A cell is an integer
    or a string (a column that [read_csv] could not parse as numbers is a
    column of strings; the date column holds its timestamp). *)

Inductive cell : Type :=
| CInt (z : Z)
| CStr (s : string).

Record frame : Type := mkFrame {
  columns : list string;
  rows : list (list cell)
}.

Inductive exn : Type :=
| KeyError (c : string)
| TypeError
| IndexError.

Inductive result (A : Type) : Type :=
| Ok (a : A)
| Raise (e : exn).
Arguments Ok {A} a.
Arguments Raise {A} e.

Definition bind {A B : Type} (m : result A) (k : A -> result B) : result B :=
  match m with
  | Ok a => k a
  | Raise e => Raise e
  end.

Notation "x <- m ;; k" := (bind m (fun x => k))
  (at level 61, m at next level, right associativity).

Fixpoint mapM {A B : Type} (f : A -> result B) (l : list A) : result (list B) :=
  match l with
  | [] => Ok []
  | a :: l' => b <- f a ;; bs <- mapM f l' ;; Ok (b :: bs)
  end.

(** [r[c]]: the cell of row [r] under the column named [c], for a label
    that names one column.  (Under a label that names several columns
    pandas returns all their cells; [preprocess] below sets such frames
    apart before any row is read.) *)
Fixpoint lookup (cols : list string) (r : list cell) (c : string) : result cell :=
  match cols, r with
  | k :: cols', v :: r' => if String.eqb k c then Ok v else lookup cols' r' c
  | _, _ => Raise (KeyError c)
  end.

(** Python's [>]: integers by value, strings lexicographically, and a
    [TypeError] between an integer and a string. *)
Definition cell_gt (a b : cell) : result bool :=
  match a, b with
  | CInt x, CInt y => Ok (x >? y)
  | CStr s, CStr t => Ok (match String.compare s t with Gt => true | _ => false end)
  | _, _ => Raise TypeError
  end.

(** [-] followed by [abs] on two cells: defined on integers only. *)
Definition cell_absdiff (a b : cell) : result Z :=
  match a, b with
  | CInt x, CInt y => Ok (abs64 (sub64 x y))
  | _, _ => Raise TypeError
  end.

Definition required_cols : list string :=
  ["match_id"; "date"; "team1"; "team2"; "venue"; "runs_team1"; "runs_team2"]%string.

Definition has_column (df : frame) (c : string) : bool :=
  existsb (String.eqb c) (columns df).

(** Line 56: [set(required_cols).issubset(df.columns)] *)
Definition issubset (cs : list string) (df : frame) : bool :=
  forallb (has_column df) cs.

(** Line 57: [set(required_cols) - set(df.columns)] *)
Definition missing_columns (df : frame) : list string :=
  filter (fun c => negb (has_column df c)) required_cols.

Definition winner_cell (df : frame) (r : list cell) : result cell :=
  r1 <- lookup (columns df) r "runs_team1" ;;
  r2 <- lookup (columns df) r "runs_team2" ;;
  g <- cell_gt r1 r2 ;;
  if (g : bool) then lookup (columns df) r "team1" else lookup (columns df) r "team2".

Definition margin_cell (df : frame) (r : list cell) : result Z :=
  r1 <- lookup (columns df) r "runs_team1" ;;
  r2 <- lookup (columns df) r "runs_team2" ;;
  cell_absdiff r1 r2.

(** The labels that lines 61 and 62 read in a row. *)
Definition labels_read : list string :=
  ["runs_team1"; "runs_team2"; "team1"; "team2"]%string.

(** How many columns of the frame carry the label [c].  Line 52 can give
    two columns one label (["Team1"] and ["team1 "] both become
    ["team1"]). *)
Definition occurrences (c : string) (cols : list string) : nat :=
  List.length (filter (String.eqb c) cols).

Definition repeated_label (df : frame) : bool :=
  existsb (fun c => (1 <? occurrences c (columns df))%nat) labels_read.

Definition no_rows (df : frame) : bool :=
  match rows df with
  | [] => true
  | _ :: _ => false
  end.

(** How far the script gets on a frame. *)
Inductive outcome : Type :=
| Stopped (missing : list string)
    (* lines 57-58: [st.error] with the missing columns, then [st.stop()] *)
| Crashed (e : exn) (winner_done : option (list cell))
    (* an exception escaped line 61 ([None]) or line 62 (the winner column
       was already computed) *)
| Derived (winners : list cell) (margins : list Z)
| NotEmbedded.
    (* the frame passed the gate, but it has no row, or one of
       [labels_read] names several columns: there [df.apply] and [r[c]]
       do not work row by row and cell by cell, and what pandas does
       instead is not embedded *)

(** Lines 55-62. *)
Definition preprocess (df : frame) : outcome :=
  if negb (issubset required_cols df) then Stopped (missing_columns df)
  else if no_rows df || repeated_label df then NotEmbedded
  else
    match mapM (winner_cell df) (rows df) with
    | Raise e => Crashed e None
    | Ok ws =>
        match mapM (margin_cell df) (rows df) with
        | Raise e => Crashed e (Some ws)
        | Ok ms => Derived ws ms
        end
    end.

(** A frame built from typed records, in the order of [required_cols]. *)
Definition row_of (r : MatchRecord) : list cell :=
  [CInt (match_id r); CInt (date r); CStr (team1 r); CStr (team2 r);
   CStr (venue r); CInt (runs_team1 r); CInt (runs_team2 r)].

Definition frame_of (df : list MatchRecord) : frame :=
  mkFrame required_cols (map row_of df).

(** *** The team series (lines 70-72) *)

(** A row of [team_df]: the match with the selected team's runs. *)
Record Observation : Type := mkObs {
  obs_match : MatchRecord;
  team_runs : Z
}.

Definition obs_date (o : Observation) : Z := date (obs_match o).

(** Line 70: [(df.team1 == team) | (df.team2 == team)] *)
Definition plays (team : string) (r : MatchRecord) : bool :=
  String.eqb (team1 r) team || String.eqb (team2 r) team.

(** Line 71:
    [lambda r: r["runs_team1"] if r["team1"] == team else r["runs_team2"]] *)
Definition team_runs_of (team : string) (r : MatchRecord) : Z :=
  if String.eqb (team1 r) team then runs_team1 r else runs_team2 r.

Definition observe (team : string) (r : MatchRecord) : Observation :=
  mkObs r (team_runs_of team r).

(** Line 72 calls [sort_values("date")] with the default [kind], which is
    pandas' ['quicksort']; pandas documents only ['mergesort'] and
    ['stable'] as stable.  The sort is therefore a parameter of the
    embedding, known by its contract: the result is a rearrangement of the
    frame with the dates ascending. *)
Definition date_le (a b : Observation) : Prop := obs_date a <= obs_date b.

Definition sort_contract (sort : list Observation -> list Observation) : Prop :=
  forall l, Permutation (sort l) l /\ StronglySorted date_le (sort l).

(** Lines 70-72. *)
Definition team_df (sort_values : list Observation -> list Observation)
    (df : list MatchRecord) (team : string) : list Observation :=
  sort_values (map (observe team) (filter (plays team) df)).

(** Two sorts that meet the contract.  Both are insertion sorts; they
    differ in where an observation goes among those of its own date. *)
Fixpoint insert_before (o : Observation) (l : list Observation) : list Observation :=
  match l with
  | [] => [o]
  | x :: l' => if obs_date o <=? obs_date x then o :: l else x :: insert_before o l'
  end.

Fixpoint insert_after (o : Observation) (l : list Observation) : list Observation :=
  match l with
  | [] => [o]
  | x :: l' => if obs_date o <? obs_date x then o :: l else x :: insert_after o l'
  end.

(** Keeps equal dates in their original order. *)
Definition sort_stable (l : list Observation) : list Observation :=
  fold_right insert_before [] l.

(** Reverses the original order of equal dates. *)
Definition sort_reversing (l : list Observation) : list Observation :=
  fold_right insert_after [] l.

(** The rows of one date, in the order they stand in [l]. *)
Definition on_date (d : Z) (l : list Observation) : list Observation :=
  filter (fun o => obs_date o =? d) l.

(** *** Rolling average (line 98): [team_df["team_runs"].rolling(5).mean()]

    pandas computes a rolling mean with one running sum: entering a window
    adds the values that came in and removes the values that went out
    ([roll_mean], [add_mean], [remove_mean] and [calc_mean] of
    [pandas/_libs/window/aggregations.pyx]).  [None] is the [NaN] pandas
    writes where the window holds fewer than [min_periods] values. *)

Record roll_state : Type := mkRoll {
  nobs : nat;
  sum_x : Q
}.

Definition roll_init : roll_state := mkRoll 0 0%Q.

Definition add_mean (st : roll_state) (v : Q) : roll_state :=
  mkRoll (S (nobs st)) (sum_x st + v)%Q.

Definition remove_mean (st : roll_state) (v : Q) : roll_state :=
  mkRoll (pred (nobs st)) (sum_x st - v)%Q.

Definition calc_mean (minp : nat) (st : roll_state) : option Q :=
  if ((minp <=? nobs st) && (0 <? nobs st))%nat
  then Some (sum_x st / inject_Z (Z.of_nat (nobs st)))%Q
  else None.

(** Bounds of the fixed window that closes at position [i]:
    [start = max(0, i + 1 - window)], [end = i + 1]. *)
Definition win_start (w i : nat) : nat := (i + 1 - w)%nat.
Definition win_end (i : nat) : nat := (i + 1)%nat.

(** [values[a:b]] *)
Definition slice {A : Type} (l : list A) (a b : nat) : list A :=
  firstn (b - a) (skipn a l).

(** The state after the window moved to position [i]. *)
Definition roll_step (w : nat) (values : list Q) (i : nat) (st : roll_state)
    : roll_state :=
  if ((i =? 0) || (win_end (i - 1) <=? win_start w i))%nat
  then fold_left add_mean (slice values (win_start w i) (win_end i)) roll_init
  else
    fold_left add_mean (slice values (win_end (i - 1)) (win_end i))
      (fold_left remove_mean
         (slice values (win_start w (i - 1)) (win_start w i)) st).

(** The loop over the positions [i, i + n). *)
Fixpoint roll_loop (w minp : nat) (values : list Q) (i n : nat)
    (st : roll_state) : list (option Q) :=
  match n with
  | O => []
  | S n' =>
      let st' := roll_step w values i st in
      calc_mean minp st' :: roll_loop w minp values (S i) n' st'
  end.

(** [Series.rolling(w).mean()]: [min_periods] defaults to the window. *)
Definition rolling_mean (w : nat) (values : list Q) : list (option Q) :=
  roll_loop w w values 0 (List.length values) roll_init.

(** The column of floats a team series shows to the numeric routines. *)
Definition runs_column (s : list Observation) : list Q :=
  map (fun o => inject_Z (team_runs o)) s.

Definition rolling_avg (s : list Observation) : list (option Q) :=
  rolling_mean 5 (runs_column s).

Fixpoint Qsum (l : list Q) : Q :=
  match l with
  | [] => 0%Q
  | x :: l' => (x + Qsum l')%Q
  end.

(** The arithmetic mean of the positions [i-4 .. i], as the specification
    words it. *)
Definition window_mean (values : list Q) (i : nat) : Q :=
  (Qsum (slice values (i - 4) (i + 1)) / 5)%Q.

(** *** Floats with their special values

    The result of a float computation: a number, or one of the values a
    division by zero produces.  Zero is unsigned (every divisor of the
    script is a maximum, a minimum or a standard deviation of non-negative
    data). *)

Inductive fnum (A : Type) : Type :=
| Fin (x : A)
| PInf
| NInf
| NaN.
Arguments Fin {A} x.
Arguments PInf {A}.
Arguments NInf {A}.
Arguments NaN {A}.

Definition is_finite {A : Type} (v : fnum A) : Prop :=
  match v with Fin _ => True | _ => False end.

(** *** Outliers (lines 126-127)

    [scipy.stats.zscore(a, ddof=0)] is [(a - a.mean()) / a.std(ddof=ddof)];
    the script leaves [ddof] at its default.  [numpy]'s [std] is the square
    root of the mean of the squared deviations, the mean taken over
    [n - ddof].

    The scores are embedded twice.  First as the numbers they stand for,
    over the reals: which standard deviation they divide by is read off
    there.  Then, further down, on binary64 with every operation rounded
    as [numpy] rounds it: the mask of line 127 compares a computed score
    with 2, and a score that is 2 as a number may be computed above 2. *)











(** [frame[mask]]: the rows whose mask entry is [True]. *)
Fixpoint select {A : Type} (l : list A) (mask : list bool) : list A :=
  match l, mask with
  | x :: l', b :: mask' => if b then x :: select l' mask' else select l' mask'
  | _, _ => []
  end.


(** **** The scores as they are computed, on binary64

    An [int64] cast to [float64], rounded to nearest. *)
Definition b64_of_int (z : Z) : float :=
  if z =? int64_min then (-0x1p63)%float
  else if z <? 0 then PrimFloat.opp (PrimFloat.of_uint63 (Uint63.of_Z (- z)))
  else PrimFloat.of_uint63 (Uint63.of_Z z).

(** [res += a[i]] over [l], from left to right. *)
Definition sum_from (acc : float) (l : list float) : float :=
  fold_left PrimFloat.add l acc.

(** [r[j] += a[i + j]] for the eight running sums [r]. *)
Fixpoint add_lanes (r l : list float) : list float :=
  match r, l with
  | x :: r', y :: l' => PrimFloat.add x y :: add_lanes r' l'
  | _, _ => r
  end.

(** The loop over the full blocks of eight: the running sums and the
    elements that are left (fewer than eight). *)
Fixpoint sum_blocks (fuel : nat) (r l : list float) : list float * list float :=
  match fuel with
  | O => (r, l)
  | S fuel' =>
      if (8 <=? List.length l)%nat
      then sum_blocks fuel' (add_lanes r (firstn 8 l)) (skipn 8 l)
      else (r, l)
  end.

(** [((r[0] + r[1]) + (r[2] + r[3])) + ((r[4] + r[5]) + (r[6] + r[7]))] *)
Definition sum_lanes (r : list float) : float :=
  match r with
  | [r0; r1; r2; r3; r4; r5; r6; r7] =>
      PrimFloat.add
        (PrimFloat.add (PrimFloat.add r0 r1) (PrimFloat.add r2 r3))
        (PrimFloat.add (PrimFloat.add r4 r5) (PrimFloat.add r6 r7))
  | _ => 0%float
  end.

(** [numpy]'s sum of a float array ([pairwise_sum]): fewer than 8
    elements are added from left to right; up to 128 are added in eight
    running sums, block of eight by block of eight, the sums are combined
    and the elements that are left are added one by one; a longer array is
    cut in two, the first part a multiple of eight, and the two sums are
    added.  [fuel] bounds the depth of the cuts, the length is enough. *)
Fixpoint pairwise_sum (fuel : nat) (l : list float) : float :=
  let n := List.length l in
  if (n <? 8)%nat then sum_from 0%float l
  else if (n <=? 128)%nat then
    let '(r, rest) := sum_blocks n (firstn 8 l) (skipn 8 l) in
    sum_from (sum_lanes r) rest
  else
    match fuel with
    | O => 0%float
    | S fuel' =>
        let n2 := (n / 2 - (n / 2) mod 8)%nat in
        PrimFloat.add (pairwise_sum fuel' (firstn n2 l))
                      (pairwise_sum fuel' (skipn n2 l))
    end.

(** [np.add.reduce]: the identity [0] plus the pairwise sum.  (The sum
    of the mean runs over the column cast to [float64]; its terms are
    integers, and while the sums stay below [2^53] every order of the
    additions gives the same, exact, result.) *)
Definition np_sum (l : list float) : float :=
  PrimFloat.add 0%float (pairwise_sum (List.length l) l).

Definition b64_len {A : Type} (l : list A) : float :=
  b64_of_int (Z.of_nat (List.length l)).

(** [a.mean()] *)
Definition b64_mean (x : list float) : float :=
  PrimFloat.div (np_sum x) (b64_len x).

(** [a.std(ddof=0)]: [x = a - mean], [x = x * x], the sum of [x] divided
    by [n], and the square root. *)
Definition b64_std (x : list float) : float :=
  let mn := b64_mean x in
  let d := map (fun v => PrimFloat.sub v mn) x in
  PrimFloat.sqrt (PrimFloat.div (np_sum (map (fun v => PrimFloat.mul v v) d))
                                (b64_len x)).

(** [(_first(a) == a).all()]: every element of the column is its first
    one.  (The column of a team of the sidebar is never empty; of an
    empty column nothing is stated.) *)
Definition isconst (a : list Z) : bool :=
  match a with
  | [] => true
  | a0 :: _ => forallb (Z.eqb a0) a
  end.

(** [stats.zscore] on an [int64] column: the standard deviation of a
    constant column is set to 1 to divide by, and the scores of a constant
    column are set to [nan]. *)
Definition b64_zscore (a : list Z) : list float :=
  let x := map b64_of_int a in
  let mn := b64_mean x in
  let std := if isconst a then 1%float else b64_std x in
  map (fun v => if isconst a then PrimFloat.nan
                else PrimFloat.div (PrimFloat.sub v mn) std) x.

(** Line 126: [z = np.abs(stats.zscore(team_df["team_runs"]))] *)
Definition abs_z (s : list Observation) : list float :=
  map PrimFloat.abs (b64_zscore (map team_runs s)).

(** Line 127: [outliers = team_df[z > 2]] *)
Definition outliers (s : list Observation) : list Observation :=
  select s (map (fun z => PrimFloat.ltb 2%float z) (abs_z s)).




(** An integer test of [|z| > 2] on the scores as numbers, without the
    square root: with [n] observations of sum [sm], [|z| > 2] says
    [n * (n*x - sm)^2 > 4 * sum_i (n*x_i - sm)^2]. *)
Fixpoint Zsum (l : list Z) : Z :=
  match l with
  | [] => 0
  | x :: l' => x + Zsum l'
  end.


(** *** Trend prediction (lines 135-142)

    [LinearRegression().fit(X, y)] centres [X] and [y] on their means,
    solves the least-squares problem of the centred data and restores the
    intercept; [predict] evaluates the line. *)

Definition Qmean (l : list Q) : Q :=
  (Qsum l / inject_Z (Z.of_nat (List.length l)))%Q.

(** [np.arange(n)] as floats. *)
Definition arange (n : nat) : list Q :=
  map (fun i => inject_Z (Z.of_nat i)) (seq 0 n).

Fixpoint dot (u v : list Q) : Q :=
  match u, v with
  | x :: u', y :: v' => (x * y + dot u' v')%Q
  | _, _ => 0%Q
  end.

(** The minimum-norm least-squares solution of [xc * c = yc] in one
    unknown. *)
Definition lstsq1 (xc yc : list Q) : Q :=
  if Qeq_bool (dot xc xc) 0 then 0%Q else (dot xc yc / dot xc xc)%Q.

Record LinearModel : Type := mkModel {
  coef_ : Q;
  intercept_ : Q
}.

Definition fit (X y : list Q) : LinearModel :=
  let X_offset := Qmean X in
  let y_offset := Qmean y in
  let c := lstsq1 (map (fun x => (x - X_offset)%Q) X)
                  (map (fun v => (v - y_offset)%Q) y) in
  mkModel c (y_offset - X_offset * c)%Q.

Definition predict (m : LinearModel) (x : Q) : Q :=
  (x * coef_ m + intercept_ m)%Q.

(** Lines 135-142: [Some] prediction, or [None] for the message
    "Need at least 5 matches for prediction." *)
Definition predict_next (s : list Observation) : option Q :=
  if (5 <=? List.length s)%nat
  then Some (predict (fit (arange (List.length s)) (runs_column s))
               (inject_Z (Z.of_nat (List.length s))))
  else None.

(** The sum of squared residuals of the line [a + b * x] on the points
    [(x_i, y_i)], and what it is to be a least-squares line. *)
Fixpoint sse (a b : Q) (X y : list Q) : Q :=
  match X, y with
  | x :: X', v :: y' => ((v - (a + b * x)) * (v - (a + b * x)) + sse a b X' y')%Q
  | _, _ => 0%Q
  end.

Definition least_squares_line (X y : list Q) (a b : Q) : Prop :=
  forall a' b' : Q, (sse a b X y <= sse a' b' X y)%Q.

(** *** Player scores (lines 185-193) *)

Record PlayerRecord : Type := mkPlayer {
  player_name : string;
  team : string;
  runs : Q;
  wickets : Q;
  strike_rate : Q;
  economy : Q
}.

Definition Qsign (q : Q) : comparison := (q ?= 0)%Q.

(** Float division, multiplication and addition on numbers and special
    values. *)
Definition fdiv (a b : fnum Q) : fnum Q :=
  match a, b with
  | NaN, _ | _, NaN => NaN
  | Fin x, Fin y =>
      match Qsign y with
      | Eq => match Qsign x with Eq => NaN | Gt => PInf | Lt => NInf end
      | _ => Fin (x / y)%Q
      end
  | Fin _, (PInf | NInf) => Fin 0%Q
  | PInf, Fin y => match Qsign y with Lt => NInf | _ => PInf end
  | NInf, Fin y => match Qsign y with Lt => PInf | _ => NInf end
  | (PInf | NInf), (PInf | NInf) => NaN
  end.

Definition fmul (a b : fnum Q) : fnum Q :=
  match a, b with
  | NaN, _ | _, NaN => NaN
  | Fin x, Fin y => Fin (x * y)%Q
  | Fin x, PInf | PInf, Fin x =>
      match Qsign x with Eq => NaN | Gt => PInf | Lt => NInf end
  | Fin x, NInf | NInf, Fin x =>
      match Qsign x with Eq => NaN | Gt => NInf | Lt => PInf end
  | PInf, PInf | NInf, NInf => PInf
  | PInf, NInf | NInf, PInf => NInf
  end.

Definition fadd (a b : fnum Q) : fnum Q :=
  match a, b with
  | NaN, _ | _, NaN => NaN
  | Fin x, Fin y => Fin (x + y)%Q
  | PInf, NInf | NInf, PInf => NaN
  | PInf, _ | _, PInf => PInf
  | NInf, _ | _, NInf => NInf
  end.

(** [Series.max()] and [Series.min()] of a column of numbers ([NaN] on an
    empty column). *)
Definition Qmax (a b : Q) : Q := if Qle_bool a b then b else a.
Definition Qmin (a b : Q) : Q := if Qle_bool a b then a else b.

Definition col_max (l : list Q) : fnum Q :=
  match l with
  | [] => NaN
  | x :: l' => Fin (fold_left Qmax l' x)
  end.

Definition col_min (l : list Q) : fnum Q :=
  match l with
  | [] => NaN
  | x :: l' => Fin (fold_left Qmin l' x)
  end.

(** Lines 185-188. *)
Definition bat_score (players : list PlayerRecord) (p : PlayerRecord) : fnum Q :=
  fadd
    (fmul (fdiv (Fin (runs p)) (col_max (map runs players))) (Fin (6 # 10)))
    (fmul (fdiv (Fin (strike_rate p)) (col_max (map strike_rate players)))
          (Fin (4 # 10))).

(** Lines 189-192. *)
Definition bowl_score (players : list PlayerRecord) (p : PlayerRecord) : fnum Q :=
  fadd
    (fmul (fdiv (Fin (wickets p)) (col_max (map wickets players))) (Fin (7 # 10)))
    (fmul (fdiv (col_min (map economy players)) (Fin (economy p)))
          (Fin (3 # 10))).

(** Line 193. *)
Definition performance_index (players : list PlayerRecord) (p : PlayerRecord)
    : fnum Q :=
  fdiv (fadd (bat_score players p) (bowl_score players p)) (Fin 2%Q).

(** The player table of the data model: every numeric field non-negative. *)
Definition non_negative (p : PlayerRecord) : Prop :=
  (0 <= runs p /\ 0 <= wickets p /\ 0 <= strike_rate p /\ 0 <= economy p)%Q.

(** [v] is the number [q]. *)
Definition is_num (v : fnum Q) (q : Q) : Prop :=
  match v with Fin x => (x == q)%Q | _ => False end.

(** [q] is the greatest (least) entry of a column. *)
Definition is_max_of (q : Q) (l : list Q) : Prop :=
  (exists x, In x l /\ x == q)%Q /\ forall x, In x l -> (x <= q)%Q.

Definition is_min_of (q : Q) (l : list Q) : Prop :=
  (exists x, In x l /\ x == q)%Q /\ forall x, In x l -> (q <= x)%Q.

(** *** Quantities the proofs speak of *)


(** The score of one value [x] of the column [a] as line 126 computes
    it, and the test of line 127 on it. *)
Definition b64_score (a : list Z) (x : Z) : float :=
  if isconst a then PrimFloat.nan
  else PrimFloat.div (PrimFloat.sub (b64_of_int x) (b64_mean (map b64_of_int a)))
                     (b64_std (map b64_of_int a)).


(** The running state of the rolling mean describes the window that closes
    at [i]. *)
Definition window_state (w : nat) (values : list Q) (i : nat) (st : roll_state)
    : Prop :=
  nobs st = (win_end i - win_start w i)%nat /\
  (sum_x st == Qsum (slice values (win_start w i) (win_end i)))%Q.

(** What the loop knows when it reaches position [i]. *)
Definition before (w : nat) (values : list Q) (i : nat) (st : roll_state) : Prop :=
  i = 0%nat \/ window_state w values (i - 1) st.

Definition Qlen {A : Type} (l : list A) : Q := inject_Z (Z.of_nat (List.length l)).

(** Sums over the points [(x_i, y_i)] of a line's residuals, of the
    residuals weighted by [x_i], and of the squares of a line. *)
Fixpoint sum_res (a b : Q) (X y : list Q) : Q :=
  match X, y with
  | x :: X', v :: y' => ((v - (a + b * x)) + sum_res a b X' y')%Q
  | _, _ => 0%Q
  end.

Fixpoint sum_res_x (a b : Q) (X y : list Q) : Q :=
  match X, y with
  | x :: X', v :: y' => ((v - (a + b * x)) * x + sum_res_x a b X' y')%Q
  | _, _ => 0%Q
  end.

Fixpoint sum_sq_line (da db : Q) (X y : list Q) : Q :=
  match X, y with
  | x :: X', _ :: y' => ((da + db * x) * (da + db * x) + sum_sq_line da db X' y')%Q
  | _, _ => 0%Q
  end.

(** *** Sample tables *)

Definition sample_matches : list MatchRecord :=
  [ mkMatch 1 100 "CSK" "MI" "Chepauk" 180 175;
    mkMatch 2 200 "RCB" "CSK" "Chinnaswamy" 160 160;
    mkMatch 3 300 "MI" "RCB" "Wankhede" 150 201 ]%string.

Definition sample_derived : DerivedRecord :=
  mkDerived (mkMatch 3 300 "MI" "RCB" "Wankhede" 150 201) "RCB" 51.

(** A frame with every required column whose runs columns hold text. *)
Definition text_runs_frame : frame :=
  mkFrame required_cols
    [[CInt 1; CInt 100; CStr "CSK"; CStr "MI"; CStr "Chepauk";
      CStr "180/4"; CStr "175/9"]]%string.

(** A frame in which two columns are labelled [runs_team1]. *)
Definition twice_runs_frame : frame :=
  mkFrame ["match_id"; "date"; "team1"; "team2"; "venue"; "runs_team1";
           "runs_team2"; "runs_team1"]%string
    [[CInt 1; CInt 100; CStr "CSK"; CStr "MI"; CStr "Chepauk";
      CInt 180; CInt 175; CInt 181]]%string.

Definition short_frame : frame :=
  mkFrame ["match_id"; "date"; "team1"; "team2"; "runs_team1"; "runs_team2"]%string
    [[CInt 1; CInt 100; CStr "CSK"; CStr "MI"; CInt 180; CInt 175]]%string.

(** Eighteen matches of one team on one date, in the order of the table.
    (Eighteen rows, to be past the short arrays that numpy's quick sort
    orders by plain insertion.) *)
Definition same_day_matches : list MatchRecord :=
  map (fun i => mkMatch (Z.of_nat i) 0 "CSK" "MI" "Chepauk"
                        (150 + Z.of_nat i) 140)
      (seq 0 18).

Definition series_of (runs_list : list Z) : list Observation :=
  map (fun x => mkObs (mkMatch 0 0 "CSK" "MI" "Chepauk" x 0) x) runs_list.




Definition kohli : PlayerRecord := mkPlayer "Kohli" "RCB" 600 10 (150 # 1) (6 # 1).

Definition bumrah : PlayerRecord := mkPlayer "Bumrah" "MI" 50 8 (90 # 1) (13 # 2).

Definition sample_players : list PlayerRecord := [kohli; bumrah].

(** A table of players who have not batted. *)
Definition bowlers_only : list PlayerRecord :=
  [ mkPlayer "Bumrah" "MI" 0 8 0 (13 # 2);
    mkPlayer "Chahal" "RR" 0 12 0 (15 # 2) ].

(* ================================================================= *)
(** ** Part I, continued: the rest of the script *)
(* ================================================================= *)

(** *** The same match with the two sides exchanged *)

Definition swap_sides (r : MatchRecord) : MatchRecord :=
  mkMatch (match_id r) (date r) (team2 r) (team1 r) (venue r)
          (runs_team2 r) (runs_team1 r).

(** *** The team list of the sidebar (line 66):
        [sorted(set(df["team1"]) | set(df["team2"]))]

    A Python set has no order of its own; [sorted] gives the one list that
    holds each of its members once, ascending (strings compare by code
    point, which on UTF-8 text is the order of the bytes). *)

Definition string_lt (a b : string) : Prop := String.compare a b = Lt.

Fixpoint insert_uniq (s : string) (l : list string) : list string :=
  match l with
  | [] => [s]
  | x :: l' =>
      match String.compare s x with
      | Lt => s :: l
      | Eq => l
      | Gt => x :: insert_uniq s l'
      end
  end.

(** [sorted(set(l))] *)
Definition sorted_set (l : list string) : list string :=
  fold_right insert_uniq [] l.

Definition teams (df : list MatchRecord) : list string :=
  sorted_set (map team1 df ++ map team2 df).

(** *** The three metrics (lines 80-82) *)

Definition add64 (a b : Z) : Z := wrap64 (a + b).

(** [len(team_df)] *)
Definition matches_played (s : list Observation) : nat := List.length s.

(** [team_df["team_runs"].sum()]: an int64 sum. *)
Definition total_runs (s : list Observation) : Z :=
  fold_left add64 (map team_runs s) 0.

(** [team_df["team_runs"].max()]: [None] is the [NaN] of an empty column. *)
Definition highest_score (s : list Observation) : option Z :=
  match map team_runs s with
  | [] => None
  | x :: l => Some (fold_left Z.max l x)
  end.

(** *** Average runs by venue (line 112):
        [team_df.groupby("venue")["team_runs"].mean().sort_values(ascending=False)]

    [groupby] makes one group per venue, the keys ascending; [mean]
    averages each group; [sort_values] is again called with its default
    [kind], so it is known by its contract. *)

Definition obs_venue (o : Observation) : string := venue (obs_match o).

Definition at_venue (v : string) (s : list Observation) : list Observation :=
  filter (fun o => String.eqb (obs_venue o) v) s.

Definition groupby_mean (s : list Observation) : list (string * Q) :=
  map (fun v => (v, Qmean (runs_column (at_venue v s))))
      (sorted_set (map obs_venue s)).

Definition descending (a b : string * Q) : Prop := (snd b <= snd a)%Q.

Definition sort_desc_contract
    (sort : list (string * Q) -> list (string * Q)) : Prop :=
  forall l, Permutation (sort l) l /\ StronglySorted descending (sort l).

Definition venue_avg (sort_values : list (string * Q) -> list (string * Q))
    (s : list Observation) : list (string * Q) :=
  sort_values (groupby_mean s).

(** *** The player comparison (lines 156-166) *)

(** [sorted(players["player_name"].unique())], the options of both
    select boxes. *)
Definition player_options (players : list PlayerRecord) : list string :=
  sorted_set (map player_name players).

(** [players[players["player_name"] == name].iloc[0]]; [None] is the
    [IndexError] of [iloc[0]] on an empty selection. *)
Definition first_row (players : list PlayerRecord) (name : string)
    : option PlayerRecord :=
  match filter (fun r => String.eqb (player_name r) name) players with
  | [] => None
  | r :: _ => Some r
  end.

Inductive entry : Type :=
| Label (s : string)
| Number (q : Q).

(** A Python [dict] as the list of its items in insertion order: setting
    a key that is present replaces its value where it stands. *)
Fixpoint dict_set {V : Type} (d : list (string * V)) (k : string) (v : V)
    : list (string * V) :=
  match d with
  | [] => [(k, v)]
  | (k', v') :: d' =>
      if String.eqb k' k then (k', v) :: d' else (k', v') :: dict_set d' k v
  end.

Fixpoint dict_get {V : Type} (d : list (string * V)) (k : string) : option V :=
  match d with
  | [] => None
  | (k', v') :: d' => if String.eqb k' k then Some v' else dict_get d' k
  end.

Definition metric_labels : list entry :=
  [Label "Runs"; Label "Wickets"; Label "Strike Rate"; Label "Economy"].

Definition metrics_of (r : PlayerRecord) : list entry :=
  [Number (runs r); Number (wickets r); Number (strike_rate r);
   Number (economy r)].

(** Lines 162-166: the dict literal handed to [pd.DataFrame]. *)
Definition compare_columns (player1 player2 : string) (df1 df2 : PlayerRecord)
    : list (string * list entry) :=
  dict_set (dict_set (dict_set [] "Metric" metric_labels)
                     player1 (metrics_of df1))
           player2 (metrics_of df2).

(** Lines 159-166. *)
Definition compare (players : list PlayerRecord) (player1 player2 : string)
    : option (list (string * list entry)) :=
  match first_row players player1 with
  | None => None
  | Some df1 =>
      match first_row players player2 with
      | None => None
      | Some df2 => Some (compare_columns player1 player2 df1 df2)
      end
  end.

(** *** The top performers (line 195):
        [players.sort_values("performance_index", ascending=False).head(5)]

    Descending, with [NaN] last ([na_position] is left at ['last']); the
    default [kind] again, hence a contract. *)

(** [a <= b] on floats that are not [NaN]. *)
Definition fle (a b : fnum Q) : bool :=
  match a, b with
  | NaN, _ | _, NaN => false
  | NInf, _ | _, PInf => true
  | Fin x, Fin y => Qle_bool x y
  | _, _ => false
  end.

(** A row with key [a] may stand before a row with key [b]. *)
Definition ranks_before (a b : fnum Q) : bool :=
  match b with
  | NaN => true
  | _ => fle b a
  end.

Definition rank_contract (key : PlayerRecord -> fnum Q)
    (sort : list PlayerRecord -> list PlayerRecord) : Prop :=
  forall l,
    Permutation (sort l) l /\
    StronglySorted (fun a b => ranks_before (key a) (key b) = true) (sort l).

Definition top_players
    (sort_values : (PlayerRecord -> fnum Q) -> list PlayerRecord -> list PlayerRecord)
    (players : list PlayerRecord) : list PlayerRecord :=
  firstn 5 (sort_values (performance_index players) players).

(** *** The player file as the two player tabs see it (lines 150-153 and
        184-198)

    The parsed file: the columns it has and its rows.  The columns that
    are present hold numbers (names, for [player_name] and [team]); the
    field of a row whose column is absent is never read, every read goes
    through [pcolumn]. *)

Record player_file : Type := mkPlayerFile {
  pcolumns : list string;
  ptable : list PlayerRecord
}.

(** [players[c]] *)
Definition pcolumn {A : Type} (pf : player_file) (c : string)
    (field : PlayerRecord -> A) : result (list A) :=
  if existsb (String.eqb c) (pcolumns pf)
  then Ok (map field (ptable pf))
  else Raise (KeyError c).

Definition player_required : list string :=
  ["player_name"; "team"; "runs"; "wickets"; "strike_rate"; "economy"]%string.

(** Lines 151-153: [required - set(players.columns)], reported with
    [st.error] when it is not empty.  Nothing stops the script there. *)
Definition tab2_missing (pf : player_file) : list string :=
  filter (fun c => negb (existsb (String.eqb c) (pcolumns pf))) player_required.

(** The block of lines 185-198 in the order it reads the columns: the two
    sub-scores, the index, and the columns of the table that is shown (a
    [KeyError] names the first label that is absent).  Its value is the
    pair of columns, names and indices, that the shown table is cut from
    (the cut itself is [top_players]). *)
Definition tab3 (pf : player_file) : result (list (string * fnum Q)) :=
  _ <- pcolumn pf "runs" runs ;;
  _ <- pcolumn pf "strike_rate" strike_rate ;;
  _ <- pcolumn pf "wickets" wickets ;;
  _ <- pcolumn pf "economy" economy ;;
  names <- pcolumn pf "player_name" player_name ;;
  _ <- pcolumn pf "team" team ;;
  Ok (combine names (map (performance_index (ptable pf)) (ptable pf))).

(** Lines 151-166 followed by lines 184-198, for the selections
    [player1] and [player2] of the two select boxes.  When the check of
    line 152 finds a column missing the comparison is skipped (its code is
    the [else] branch) and the script goes on to the top performers.
    Otherwise the comparison runs first, and the [IndexError] of an
    [iloc[0]] that finds no row ends the script before line 184. *)
Definition player_tabs (pf : player_file) (player1 player2 : string)
    : result (list (string * fnum Q)) :=
  match tab2_missing pf with
  | _ :: _ => tab3 pf
  | [] =>
      match compare (ptable pf) player1 player2 with
      | None => Raise IndexError
      | Some _ => tab3 pf
      end
  end.

Definition file_without_wickets : player_file :=
  mkPlayerFile ["player_name"; "team"; "runs"; "strike_rate"; "economy"]%string
               sample_players.

(** A file with every column and no row. *)
Definition header_only_file : player_file :=
  mkPlayerFile player_required [].

(** *** The column names (line 52): [c.strip().lower()]

    On ASCII text: [strip] removes the white space of Python ([\t], [\n],
    [\x0b], [\x0c], [\r], [\x1c]-[\x1f] and the blank) from both ends,
    [lower] maps [A]-[Z] to [a]-[z].  (On other text Python works on
    code points, not bytes; such names are outside this embedding.) *)

Definition is_space (c : ascii) : bool :=
  let n := nat_of_ascii c in
  ((9 <=? n) && (n <=? 13) || (28 <=? n) && (n <=? 32))%nat.

Definition is_upper (c : ascii) : bool :=
  let n := nat_of_ascii c in ((65 <=? n) && (n <=? 90))%nat.

Definition is_ascii (c : ascii) : bool := (nat_of_ascii c <? 128)%nat.

Definition lower_char (c : ascii) : ascii :=
  if is_upper c then ascii_of_nat (nat_of_ascii c + 32) else c.

Fixpoint lower (s : string) : string :=
  match s with
  | EmptyString => EmptyString
  | String c s' => String (lower_char c) (lower s')
  end.

Fixpoint lstrip (s : string) : string :=
  match s with
  | EmptyString => EmptyString
  | String c s' => if is_space c then lstrip s' else s
  end.

Fixpoint rstrip (s : string) : string :=
  match s with
  | EmptyString => EmptyString
  | String c s' =>
      match rstrip s' with
      | EmptyString => if is_space c then EmptyString else String c EmptyString
      | t => String c t
      end
  end.

Definition strip (s : string) : string := rstrip (lstrip s).

Definition normalize_column (c : string) : string := lower (strip c).

(** Line 52. *)
Definition normalize_columns (df : frame) : frame :=
  mkFrame (map normalize_column (columns df)) (rows df).

Fixpoint all_chars (p : ascii -> bool) (s : string) : bool :=
  match s with
  | EmptyString => true
  | String c s' => p c && all_chars p s'
  end.

(** *** An insertion sort by a comparison, to have sorts that meet the
        contracts *)

Fixpoint insert_by {A : Type} (leb : A -> A -> bool) (a : A) (l : list A) : list A :=
  match l with
  | [] => [a]
  | x :: l' => if leb a x then a :: l else x :: insert_by leb a l'
  end.

Definition isort_by {A : Type} (leb : A -> A -> bool) (l : list A) : list A :=
  fold_right (insert_by leb) [] l.

Definition sort_desc (l : list (string * Q)) : list (string * Q) :=
  isort_by (fun a b => Qle_bool (snd b) (snd a)) l.

Definition sort_rank (key : PlayerRecord -> fnum Q) (l : list PlayerRecord)
    : list PlayerRecord :=
  isort_by (fun a b => ranks_before (key a) (key b)) l.

(** *** More sample tables *)

Definition venue_series : list Observation :=
  [ mkObs (mkMatch 1 100 "CSK" "MI" "Chepauk" 180 175) 180;
    mkObs (mkMatch 2 200 "RCB" "CSK" "Chinnaswamy" 160 150) 150;
    mkObs (mkMatch 3 300 "CSK" "RR" "Chepauk" 200 120) 200 ]%string.

Definition six_players : list PlayerRecord :=
  [ mkPlayer "Kohli" "RCB" 600 2 (150 # 1) (8 # 1);
    mkPlayer "Bumrah" "MI" 50 20 (90 # 1) (13 # 2);
    mkPlayer "Jadeja" "CSK" 300 12 (140 # 1) (7 # 1);
    mkPlayer "Rashid" "GT" 100 18 (120 # 1) (6 # 1);
    mkPlayer "Gill" "GT" 550 0 (145 # 1) (9 # 1);
    mkPlayer "Russell" "KKR" 350 10 (180 # 1) (9 # 1) ].

(* ================================================================= *)
(** ** Part II: properties *)
(* ================================================================= *)

(** *** Winner and margin *)

Lemma wrap64_id (z : Z) : in_int64 z -> wrap64 z = z.
Proof.
  unfold in_int64, int64_min, int64_max, wrap64. intros H.
  rewrite Z.mod_small; lia.
Qed.

Lemma margin_abs (r : MatchRecord) :
  valid_runs r -> margin r = Z.abs (runs_team1 r - runs_team2 r).
Proof.
  unfold valid_runs, margin, abs64, sub64, int64_max. intros [H1 H2].
  rewrite (wrap64_id (runs_team1 r - runs_team2 r)).
  - apply wrap64_id. unfold in_int64, int64_min, int64_max. lia.
  - unfold in_int64, int64_min, int64_max. lia.
Qed.

Lemma winner_cases (r : MatchRecord) :
  (runs_team2 r < runs_team1 r /\ winner r = team1 r) \/
  (runs_team1 r <= runs_team2 r /\ winner r = team2 r).
Proof.
  unfold winner. destruct (Z.gtb_spec (runs_team1 r) (runs_team2 r)); [left | right]; split; auto.
Qed.

(** C1.  The table with its calculated fields has the rows of the match
    table, each once and in the order of the table.  When the runs of the
    table are non-negative 64-bit integers, every row has for winner the
    team with strictly more runs when the runs differ, the winner is one
    of the two teams, and the margin is the absolute difference of the
    runs: it is non-negative and it is zero only when the runs are
    equal. *)
Theorem winner_and_margin_of_every_row (df : list MatchRecord)
    (Hvalid : forall r, In r df -> valid_runs r) :
  map base (add_calculated_fields df) = df /\
  (forall i r, nth_error df i = Some r ->
     exists d, nth_error (add_calculated_fields df) i = Some d /\ base d = r) /\
  forall d, In d (add_calculated_fields df) ->
    let r := base d in
    In r df /\
    (runs_team1 r > runs_team2 r -> d_winner d = team1 r) /\
    (runs_team2 r > runs_team1 r -> d_winner d = team2 r) /\
    (d_winner d = team1 r \/ d_winner d = team2 r) /\
    d_margin d = Z.abs (runs_team1 r - runs_team2 r) /\
    0 <= d_margin d /\
    (d_margin d = 0 -> runs_team1 r = runs_team2 r).
Proof.
  split; [| split].
  - unfold add_calculated_fields. rewrite map_map. cbn. apply map_id.
  - intros i r Hi. unfold add_calculated_fields.
    rewrite nth_error_map, Hi. cbn. eauto.
  - intros d Hd.
    unfold add_calculated_fields in Hd. apply in_map_iff in Hd.
    destruct Hd as [r0 [<- Hin]]. cbn.
    pose proof (margin_abs r0 (Hvalid r0 Hin)) as Hm.
    pose proof (winner_cases r0) as Hw.
    repeat split; try (rewrite Hm); try lia; auto.
    + intros Hgt. destruct Hw as [[_ Hw] | [Hle _]]; [exact Hw | lia].
    + intros Hgt. destruct Hw as [[Hlt _] | [_ Hw]]; [lia | exact Hw].
    + destruct Hw as [[_ Hw] | [_ Hw]]; auto.
Qed.

Lemma winner_and_margin_of_every_row_witness :
  map base (add_calculated_fields sample_matches) = sample_matches /\
  exists d, nth_error (add_calculated_fields sample_matches) 2 = Some d /\
            d_winner d = "RCB"%string /\ d_margin d = 51.
Proof.
  assert (Hv : forall r, In r sample_matches -> valid_runs r).
  { intros r Hr. unfold valid_runs, int64_max.
    cbn in Hr. destruct Hr as [<- | [<- | [<- | []]]]; cbn; lia. }
  destruct (winner_and_margin_of_every_row sample_matches Hv) as (Hrows & Hnth & Hall).
  split; [exact Hrows |].
  destruct (Hnth 2%nat (mkMatch 3 300 "MI" "RCB" "Wankhede" 150 201) eq_refl)
    as [d [Hd Hb]].
  exists d. split; [exact Hd |].
  destruct (Hall d (nth_error_In _ _ Hd)) as (_ & _ & Hw & _ & Hm & _).
  rewrite Hb in Hw, Hm. split; [apply Hw; cbn; lia | exact Hm].
Defined.

Example add_calculated_fields_sample :
  map d_winner (add_calculated_fields sample_matches) = ["CSK"; "CSK"; "RCB"]%string /\
  map d_margin (add_calculated_fields sample_matches) = [5; 0; 51] /\
  nth_error (add_calculated_fields sample_matches) 2 = Some sample_derived.
Proof. repeat split. Qed.

(** C9.  On equal runs the winner is [team2]; more generally [team2] is
    named whenever [runs_team1] is not strictly greater, so that [team1]
    (when the two names differ) is named only on strictly greater runs. *)
Theorem tie_names_team2 (r : MatchRecord) :
  (runs_team1 r = runs_team2 r -> winner r = team2 r) /\
  (runs_team1 r <= runs_team2 r -> winner r = team2 r) /\
  (runs_team1 r > runs_team2 r -> winner r = team1 r) /\
  (team1 r <> team2 r -> winner r = team1 r -> runs_team1 r > runs_team2 r).
Proof.
  destruct (winner_cases r) as [[Hlt Hw] | [Hle Hw]]; repeat split; intros; try lia; auto.
  congruence.
Qed.

(** *** The validation gate *)

Lemma has_column_In (df : frame) (c : string) :
  has_column df c = true <-> In c (columns df).
Proof.
  unfold has_column. rewrite existsb_exists. split.
  - intros [x [Hin Heq]]. apply String.eqb_eq in Heq. now subst.
  - intros Hin. exists c. split; [exact Hin | apply String.eqb_refl].
Qed.

Lemma issubset_spec (cs : list string) (df : frame) :
  issubset cs df = true <-> forall c, In c cs -> In c (columns df).
Proof.
  unfold issubset. rewrite forallb_forall.
  split; intros H c Hc; apply has_column_In; auto.
Qed.

Lemma missing_columns_spec (df : frame) (c : string) :
  In c (missing_columns df) <-> In c required_cols /\ ~ In c (columns df).
Proof.
  unfold missing_columns. rewrite filter_In, negb_true_iff.
  rewrite <- has_column_In. destruct (has_column df c); intuition congruence.
Qed.

Lemma lookup_present (cols : list string) (c : string) :
  In c cols -> forall r, List.length r = List.length cols ->
  exists v, lookup cols r c = Ok v.
Proof.
  induction cols as [| k cols IH]; intros Hin r Hlen; [destruct Hin |].
  destruct r as [| v r]; [discriminate |]. cbn.
  destruct (String.eqb_spec k c) as [-> | Hne].
  - now exists v.
  - destruct Hin as [-> | Hin]; [congruence |].
    apply IH; [exact Hin | now injection Hlen].
Qed.

(** Every row has a cell for every column. *)
Definition rectangular (df : frame) : Prop :=
  forall r, In r (rows df) -> List.length r = List.length (columns df).

(** The two runs columns hold integers. *)
Definition numeric_runs (df : frame) : Prop :=
  forall r, In r (rows df) ->
    exists x y,
      lookup (columns df) r "runs_team1" = Ok (CInt x) /\
      lookup (columns df) r "runs_team2" = Ok (CInt y).

Lemma mapM_total {A B : Type} (f : A -> result B) (l : list A) :
  (forall a, In a l -> exists b, f a = Ok b) ->
  exists bs, mapM f l = Ok bs /\ List.length bs = List.length l.
Proof.
  induction l as [| a l IH]; intros H.
  - exists []. now split.
  - destruct (H a (or_introl eq_refl)) as [b Hb].
    destruct IH as [bs [Hbs Hlen]]; [intros; apply H; now right |].
    exists (b :: bs). cbn. rewrite Hb. cbn. rewrite Hbs. cbn. split; congruence.
Qed.

Lemma mapM_map {A B : Type} (f : A -> result B) (g : A -> B) (l : list A) :
  (forall a, In a l -> f a = Ok (g a)) -> mapM f l = Ok (map g l).
Proof.
  induction l as [| a l IH]; intros H; [reflexivity |].
  cbn. rewrite (H a (or_introl eq_refl)). cbn.
  rewrite IH; [reflexivity | intros; apply H; now right].
Qed.

Lemma mapM_nth {A B : Type} (f : A -> result B) (l : list A) (bs : list B) :
  mapM f l = Ok bs ->
  forall i a, nth_error l i = Some a ->
    exists b, nth_error bs i = Some b /\ f a = Ok b.
Proof.
  revert bs. induction l as [| a0 l IH]; intros bs H i a Hi.
  - destruct i; discriminate.
  - cbn in H. destruct (f a0) as [b0 | e] eqn:Hf; cbn in H; [| discriminate].
    destruct (mapM f l) as [bs' | e]; cbn in H; [| discriminate].
    injection H as <-. destruct i as [| i]; cbn in Hi |- *.
    + injection Hi as <-. eauto.
    + now apply IH.
Qed.

Lemma embedded_frame (df : frame) :
  rows df <> [] ->
  (forall c, In c labels_read -> occurrences c (columns df) = 1%nat) ->
  no_rows df || repeated_label df = false.
Proof.
  intros Hrows Honce. apply orb_false_iff. split.
  - unfold no_rows. destruct (rows df); congruence.
  - unfold repeated_label, labels_read. cbn [existsb].
    rewrite !Honce by (cbn; tauto). reflexivity.
Qed.

(** C8 (as the script has it).  The gate of lines 55-58 looks at the
    column names only.  If a required column is absent the script stops
    there, reporting exactly the absent required columns, and neither
    derived column is computed.  If every required column is present the
    gate lets the frame through, whatever its cells hold.  If moreover the
    frame has a row, each of the labels [runs_team1], [runs_team2],
    [team1] and [team2] names one column, every row has a cell for every
    column and the runs are integers, then both derived columns are
    computed, one entry per row: the winner is the cell of [team1] when
    the runs of [team1] are strictly greater and the cell of [team2]
    otherwise, the margin is the absolute difference of the runs on 64
    bits. *)
Theorem validation_gate (df : frame) :
  ((exists c, In c required_cols /\ ~ In c (columns df)) ->
     preprocess df = Stopped (missing_columns df) /\
     forall c, In c (missing_columns df) <-> In c required_cols /\ ~ In c (columns df)) /\
  ((forall c, In c required_cols -> In c (columns df)) ->
     (forall m, preprocess df <> Stopped m) /\
     (rows df <> [] ->
      (forall c, In c labels_read -> occurrences c (columns df) = 1%nat) ->
      rectangular df -> numeric_runs df ->
        exists ws ms, preprocess df = Derived ws ms /\
          List.length ws = List.length (rows df) /\
          List.length ms = List.length (rows df) /\
          forall i r, nth_error (rows df) i = Some r ->
            exists x y t1 t2,
              lookup (columns df) r "runs_team1" = Ok (CInt x) /\
              lookup (columns df) r "runs_team2" = Ok (CInt y) /\
              lookup (columns df) r "team1" = Ok t1 /\
              lookup (columns df) r "team2" = Ok t2 /\
              nth_error ws i = Some (if x >? y then t1 else t2) /\
              nth_error ms i = Some (abs64 (sub64 x y)))).
Proof.
  split.
  - intros [c [Hreq Habs]]. split; [| intro; apply missing_columns_spec].
    unfold preprocess.
    destruct (issubset required_cols df) eqn:Hsub; [| reflexivity].
    exfalso. apply Habs. rewrite issubset_spec in Hsub. now apply Hsub.
  - intros Hall.
    assert (Hsub : issubset required_cols df = true) by now apply issubset_spec.
    split.
    + intros m. unfold preprocess. rewrite Hsub. cbn [negb].
      destruct (no_rows df || repeated_label df); [discriminate |].
      destruct (mapM (winner_cell df) (rows df)); [| discriminate].
      destruct (mapM (margin_cell df) (rows df)); discriminate.
    + intros Hrows Honce Hrect Hnum. unfold preprocess. rewrite Hsub. cbn [negb].
      rewrite (embedded_frame df Hrows Honce).
      destruct (mapM_total (winner_cell df) (rows df)) as [ws [Hws Hlw]].
      { intros r Hr. unfold winner_cell.
        destruct (Hnum r Hr) as [x [y [H1 H2]]]. rewrite H1, H2. cbn.
        destruct (x >? y).
        - apply lookup_present; [apply Hall; cbn; tauto | now apply Hrect].
        - apply lookup_present; [apply Hall; cbn; tauto | now apply Hrect]. }
      destruct (mapM_total (margin_cell df) (rows df)) as [ms [Hms Hlm]].
      { intros r Hr. unfold margin_cell.
        destruct (Hnum r Hr) as [x [y [H1 H2]]]. rewrite H1, H2. cbn. eauto. }
      rewrite Hws, Hms. exists ws, ms. repeat split; try assumption.
      intros i r Hi.
      pose proof (nth_error_In _ _ Hi) as Hr.
      destruct (Hnum r Hr) as [x [y [H1 H2]]].
      destruct (lookup_present (columns df) "team1") with (r := r) as [t1 Ht1];
        [apply Hall; cbn; tauto | now apply Hrect |].
      destruct (lookup_present (columns df) "team2") with (r := r) as [t2 Ht2];
        [apply Hall; cbn; tauto | now apply Hrect |].
      destruct (mapM_nth _ _ _ Hws i r Hi) as [w [Hw Hwc]].
      destruct (mapM_nth _ _ _ Hms i r Hi) as [m [Hm Hmc]].
      exists x, y, t1, t2. repeat split; try assumption.
      * rewrite Hw. f_equal. unfold winner_cell in Hwc.
        rewrite H1, H2 in Hwc. cbn in Hwc.
        destruct (x >? y); congruence.
      * rewrite Hm. f_equal. unfold margin_cell in Hmc.
        rewrite H1, H2 in Hmc. cbn in Hmc. congruence.
Qed.

(** On a frame of typed records the derived columns are the winner and
    the margin of Part I, row by row. *)
Lemma preprocess_frame_of (df : list MatchRecord) :
  df <> [] ->
  preprocess (frame_of df)
  = Derived (map (fun r => CStr (winner r)) df) (map margin df).
Proof.
  intros Hne.
  unfold preprocess. cbn [negb]. change (issubset required_cols (frame_of df)) with true.
  cbn [negb].
  replace (no_rows (frame_of df) || repeated_label (frame_of df)) with false
    by (destruct df; [congruence | reflexivity]).
  cbn [rows frame_of].
  rewrite (mapM_map _ (fun c => match c with
                                | [_; _; CStr a; CStr b; _; CInt x; CInt y] =>
                                    CStr (if x >? y then a else b)
                                | _ => CInt 0 end)).
  2:{ intros a Ha. apply in_map_iff in Ha. destruct Ha as [r [<- _]].
      unfold winner_cell. cbn. destruct (runs_team1 r >? runs_team2 r); reflexivity. }
  rewrite (mapM_map _ (fun c => match c with
                                | [_; _; _; _; _; CInt x; CInt y] => abs64 (sub64 x y)
                                | _ => 0 end)).
  2:{ intros a Ha. apply in_map_iff in Ha. destruct Ha as [r [<- _]]. reflexivity. }
  rewrite !map_map. reflexivity.
Qed.

(** C8, counterexample.  The runs of [text_runs_frame] are not numeric,
    yet the script is not stopped by the gate: line 61 computes the winner
    column (comparing the two strings) and line 62 raises a [TypeError]. *)
Lemma text_runs_pass_the_gate :
  ~ numeric_runs text_runs_frame /\
  (forall m, preprocess text_runs_frame <> Stopped m) /\
  preprocess text_runs_frame = Crashed TypeError (Some [CStr "CSK"%string]).
Proof.
  split; [| split].
  - intros H. destruct (H _ (or_introl eq_refl)) as [x [y [H1 _]]]. discriminate.
  - intros m. vm_compute. discriminate.
  - vm_compute. reflexivity.
Qed.

Example short_frame_is_stopped :
  preprocess short_frame = Stopped ["venue"%string].
Proof. vm_compute. reflexivity. Qed.

(** A frame with two columns labelled [runs_team1] passes the gate; what
    lines 61-62 do with it is outside the embedding. *)
Example twice_runs_frame_is_set_apart :
  issubset required_cols twice_runs_frame = true /\
  occurrences "runs_team1" (columns twice_runs_frame) = 2%nat /\
  preprocess twice_runs_frame = NotEmbedded.
Proof. repeat split. Qed.

(** *** The team series *)

Lemma plays_spec (t : string) (r : MatchRecord) :
  plays t r = true <-> team1 r = t \/ team2 r = t.
Proof.
  unfold plays. rewrite orb_true_iff, !String.eqb_eq. tauto.
Qed.

Lemma team_runs_side (t : string) (r : MatchRecord) :
  (team1 r = t -> team_runs_of t r = runs_team1 r) /\
  (team1 r <> t -> team_runs_of t r = runs_team2 r).
Proof.
  unfold team_runs_of. destruct (String.eqb_spec (team1 r) t); split; intros; congruence.
Qed.

Lemma obs_match_observe (t : string) (l : list MatchRecord) :
  map obs_match (map (observe t) l) = l.
Proof.
  rewrite map_map. cbn. apply map_id.
Qed.

Section InsertionSorts.

Lemma insert_before_perm (o : Observation) (l : list Observation) :
  Permutation (insert_before o l) (o :: l).
Proof.
  induction l as [| x l IH]; cbn; [reflexivity |].
  destruct (obs_date o <=? obs_date x); [reflexivity |].
  rewrite IH. apply perm_swap.
Qed.

Lemma insert_after_perm (o : Observation) (l : list Observation) :
  Permutation (insert_after o l) (o :: l).
Proof.
  induction l as [| x l IH]; cbn; [reflexivity |].
  destruct (obs_date o <? obs_date x); [reflexivity |].
  rewrite IH. apply perm_swap.
Qed.

Lemma date_le_trans (a b c : Observation) :
  date_le a b -> date_le b c -> date_le a c.
Proof. unfold date_le. lia. Qed.

Lemma insert_before_sorted (o : Observation) (l : list Observation) :
  StronglySorted date_le l -> StronglySorted date_le (insert_before o l).
Proof.
  induction 1 as [| x l Hs IH Hx]; cbn; [repeat constructor |].
  destruct (Z.leb_spec (obs_date o) (obs_date x)) as [Hle | Hgt].
  - constructor; [constructor; assumption |].
    constructor; [exact Hle |].
    eapply Forall_impl; [| exact Hx]. intros a Ha.
    eapply date_le_trans; [exact Hle | exact Ha].
  - constructor; [exact IH |].
    eapply Permutation_Forall; [symmetry; apply insert_before_perm |].
    constructor; [unfold date_le; lia | exact Hx].
Qed.

Lemma insert_after_sorted (o : Observation) (l : list Observation) :
  StronglySorted date_le l -> StronglySorted date_le (insert_after o l).
Proof.
  induction 1 as [| x l Hs IH Hx]; cbn; [repeat constructor |].
  destruct (Z.ltb_spec (obs_date o) (obs_date x)) as [Hlt | Hge].
  - constructor; [constructor; assumption |].
    constructor; [unfold date_le; lia |].
    eapply Forall_impl; [| exact Hx]. intros a Ha.
    unfold date_le in *. lia.
  - constructor; [exact IH |].
    eapply Permutation_Forall; [symmetry; apply insert_after_perm |].
    constructor; [exact Hge | exact Hx].
Qed.

Lemma sort_stable_contract : sort_contract sort_stable.
Proof.
  intros l. induction l as [| o l [IHp IHs]]; cbn.
  - split; constructor.
  - split.
    + rewrite insert_before_perm. now constructor.
    + now apply insert_before_sorted.
Qed.

Lemma sort_reversing_contract : sort_contract sort_reversing.
Proof.
  intros l. induction l as [| o l [IHp IHs]]; cbn.
  - split; constructor.
  - split.
    + rewrite insert_after_perm. now constructor.
    + now apply insert_after_sorted.
Qed.

End InsertionSorts.

Lemma on_date_insert_before (d : Z) (o : Observation) (l : list Observation) :
  on_date d (insert_before o l)
  = if obs_date o =? d then o :: on_date d l else on_date d l.
Proof.
  unfold on_date.
  induction l as [| x l IH]; cbn.
  - destruct (obs_date o =? d); reflexivity.
  - destruct (Z.leb_spec (obs_date o) (obs_date x)) as [Hle | Hgt]; cbn.
    + destruct (obs_date o =? d); reflexivity.
    + rewrite IH.
      destruct (Z.eqb_spec (obs_date x) d), (Z.eqb_spec (obs_date o) d);
        try reflexivity; lia.
Qed.

(** A stable sort keeps the rows of each date in their original order. *)
Lemma sort_stable_keeps_order (d : Z) (l : list Observation) :
  on_date d (sort_stable l) = on_date d l.
Proof.
  induction l as [| o l IH]; [reflexivity |].
  cbn [sort_stable fold_right]. rewrite on_date_insert_before.
  fold (sort_stable l). rewrite IH. reflexivity.
Qed.

Section TeamSeries.

Variable sort_values : list Observation -> list Observation.
Hypothesis sort_ok : sort_contract sort_values.

Lemma team_df_perm (df : list MatchRecord) (t : string) :
  Permutation (team_df sort_values df t) (map (observe t) (filter (plays t) df)).
Proof. unfold team_df. apply sort_ok. Qed.

Lemma team_df_In (df : list MatchRecord) (t : string) (o : Observation) :
  In o (team_df sort_values df t)
  <-> exists r, In r df /\ (team1 r = t \/ team2 r = t) /\ o = observe t r.
Proof.
  split.
  - intros H. apply (Permutation_in _ (team_df_perm df t)) in H.
    apply in_map_iff in H. destruct H as [r [<- Hr]].
    apply filter_In in Hr. destruct Hr as [Hr Hp].
    exists r. rewrite <- plays_spec. auto.
  - intros [r [Hr [Hp ->]]].
    apply (Permutation_in _ (Permutation_sym (team_df_perm df t))).
    apply in_map. apply filter_In. rewrite plays_spec. auto.
Qed.

End TeamSeries.

(** C3 (as the script has it).  For every sort that meets the contract of
    [sort_values], the team series holds exactly the rows of the table in
    which the team is [team1] or [team2], each as often as the table has
    it; the runs of each observation are those of the side the team
    played on; and the dates are ascending.  (Nothing is said of the order
    among equal dates.) *)
Theorem team_df_rows_and_order
    (sort_values : list Observation -> list Observation)
    (sort_ok : sort_contract sort_values)
    (df : list MatchRecord) (t : string) :
  Permutation (map obs_match (team_df sort_values df t)) (filter (plays t) df) /\
  (forall r, In r (filter (plays t) df) <-> In r df /\ (team1 r = t \/ team2 r = t)) /\
  (forall o, In o (team_df sort_values df t) ->
     let r := obs_match o in
     (team1 r = t -> team_runs o = runs_team1 r) /\
     (team1 r <> t -> team2 r = t /\ team_runs o = runs_team2 r)) /\
  StronglySorted date_le (team_df sort_values df t).
Proof.
  repeat split.
  - rewrite <- (obs_match_observe t (filter (plays t) df)).
    apply Permutation_map. now apply team_df_perm.
  - now apply filter_In in H.
  - apply filter_In in H. now apply plays_spec.
  - intros [Hr Hp]. apply filter_In. now rewrite plays_spec.
  - apply (team_df_In _ sort_ok) in H. destruct H as [r0 [_ [_ ->]]]. cbn in *.
    now apply team_runs_side.
  - apply (team_df_In _ sort_ok) in H. destruct H as [r0 [_ [Hp ->]]]. cbn in *.
    tauto.
  - apply (team_df_In _ sort_ok) in H. destruct H as [r0 [_ [_ ->]]]. cbn in *.
    now apply team_runs_side.
  - unfold team_df. apply sort_ok.
Qed.

Lemma team_df_rows_and_order_witness :
  Permutation (map obs_match (team_df sort_stable sample_matches "CSK"))
              (filter (plays "CSK") sample_matches) /\
  StronglySorted date_le (team_df sort_stable sample_matches "CSK").
Proof.
  destruct (team_df_rows_and_order sort_stable sort_stable_contract
              sample_matches "CSK") as (Hp & _ & _ & Hs).
  split; [exact Hp | exact Hs].
Defined.

Example team_df_sample :
  map team_runs (team_df sort_stable sample_matches "CSK") = [180; 160].
Proof. vm_compute. reflexivity. Qed.

(** C3, counterexample.  A sort that meets the contract of the default
    [sort_values] need not be stable: on [same_day_matches] the rows of
    the common date do not come back in their original order. *)
Lemma equal_dates_may_be_reordered :
  sort_contract sort_reversing /\
  on_date 0 (team_df sort_reversing same_day_matches "CSK")
  <> on_date 0 (map (observe "CSK") (filter (plays "CSK") same_day_matches)).
Proof.
  split; [exact sort_reversing_contract |].
  intros H.
  apply (f_equal (fun l => match l with
                           | o :: _ => match_id (obs_match o)
                           | [] => 0
                           end)) in H.
  vm_compute in H. discriminate H.
Qed.

(** *** Rolling average *)

Section Slices.

Context {A : Type}.

Lemma firstn_plus (n m : nat) (l : list A) :
  firstn (n + m) l = firstn n l ++ firstn m (skipn n l).
Proof.
  revert l. induction n as [| n IH]; intros l; [reflexivity |].
  destruct l as [| x l]; cbn.
  - now rewrite firstn_nil.
  - now rewrite IH.
Qed.

Lemma slice_split (l : list A) (a b c : nat) :
  (a <= b <= c)%nat -> slice l a c = slice l a b ++ slice l b c.
Proof.
  intros H. unfold slice.
  replace (c - a)%nat with ((b - a) + (c - b))%nat by lia.
  rewrite firstn_plus, skipn_skipn.
  replace (b - a + a)%nat with b by lia. reflexivity.
Qed.

Lemma slice_length (l : list A) (a b : nat) :
  (b <= List.length l)%nat -> List.length (slice l a b) = (b - a)%nat.
Proof.
  intros H. unfold slice. rewrite length_firstn, length_skipn. lia.
Qed.

Lemma slice_empty (l : list A) (a b : nat) : (b <= a)%nat -> slice l a b = [].
Proof.
  intros H. unfold slice. replace (b - a)%nat with 0%nat by lia. reflexivity.
Qed.

(** A slice below [m] reads the first [m] entries only. *)
Lemma slice_prefix (l l' : list A) (a b m : nat) :
  (b <= m)%nat -> firstn m l = firstn m l' -> slice l a b = slice l' a b.
Proof.
  intros Hb Hpre.
  destruct (Nat.le_gt_cases a b) as [Hab | Hab].
  - unfold slice. rewrite !firstn_skipn_comm.
    replace (a + (b - a))%nat with (Nat.min (a + (b - a)) m) by lia.
    rewrite <- !firstn_firstn. now rewrite Hpre.
  - rewrite !slice_empty by lia. reflexivity.
Qed.

End Slices.

Lemma Qsum_app (l1 l2 : list Q) : (Qsum (l1 ++ l2) == Qsum l1 + Qsum l2)%Q.
Proof.
  induction l1 as [| x l1 IH]; cbn; [ring | rewrite IH; ring].
Qed.

Lemma fold_add_mean (l : list Q) (st : roll_state) :
  nobs (fold_left add_mean l st) = (nobs st + List.length l)%nat /\
  (sum_x (fold_left add_mean l st) == sum_x st + Qsum l)%Q.
Proof.
  revert st. induction l as [| v l IH]; intros st; cbn.
  - split; [lia | ring].
  - destruct (IH (add_mean st v)) as [Hn Hs]. rewrite Hn, Hs. cbn.
    split; [lia | ring].
Qed.

Lemma fold_remove_mean (l : list Q) (st : roll_state) :
  nobs (fold_left remove_mean l st) = (nobs st - List.length l)%nat /\
  (sum_x (fold_left remove_mean l st) == sum_x st - Qsum l)%Q.
Proof.
  revert st. induction l as [| v l IH]; intros st; cbn.
  - split; [lia | ring].
  - destruct (IH (remove_mean st v)) as [Hn Hs]. rewrite Hn, Hs. cbn.
    split; [lia | ring].
Qed.

Section RollingInvariant.

Variable w : nat.
Variable values : list Q.
Hypothesis w_pos : (1 <= w)%nat.

Lemma roll_step_window (i : nat) (st : roll_state) :
  (i < List.length values)%nat -> before w values i st ->
  window_state w values i (roll_step w values i st).
Proof.
  intros Hi Hb. unfold roll_step, window_state.
  destruct ((i =? 0)%nat || (win_end (i - 1) <=? win_start w i)%nat) eqn:Hc.
  - destruct (fold_add_mean (slice values (win_start w i) (win_end i)) roll_init)
      as [Hn Hs].
    rewrite Hn, Hs. cbn. rewrite slice_length by (unfold win_end; lia).
    split; [lia | ring].
  - apply orb_false_iff in Hc. destruct Hc as [Hi0 Hov].
    apply Nat.eqb_neq in Hi0. apply Nat.leb_gt in Hov.
    destruct Hb as [-> | [Hn0 Hs0]]; [congruence |].
    unfold win_end, win_start in *.
    match goal with |- context [fold_left add_mean ?l ?s] =>
      destruct (fold_add_mean l s) as [Hn Hs] end.
    match type of Hn with context [fold_left remove_mean ?l ?s] =>
      destruct (fold_remove_mean l s) as [Hn' Hs'] end.
    rewrite Hn, Hs, Hn', Hs', Hn0, Hs0.
    rewrite !slice_length by lia.
    split; [lia |].
    replace (i - 1 + 1)%nat with i in * by lia.
    destruct (Nat.le_gt_cases (i + 1) w) as [Hsmall | Hbig].
    + replace (i + 1 - w)%nat with 0%nat by lia.
      replace (i - w)%nat with 0%nat by lia.
      rewrite (slice_split values 0 i (i + 1)) by lia.
      rewrite Qsum_app, (slice_empty values 0 0) by lia. cbn. ring.
    + rewrite (slice_split values (i - w) (i + 1 - w) i) by lia.
      rewrite (slice_split values (i + 1 - w) i (i + 1)) by lia.
      rewrite !Qsum_app. ring.
Qed.

Lemma roll_loop_nth (minp n : nat) :
  forall (i : nat) (st : roll_state) (k : nat),
    (i + n <= List.length values)%nat -> before w values i st -> (k < n)%nat ->
    exists st',
      nth_error (roll_loop w minp values i n st) k = Some (calc_mean minp st') /\
      window_state w values (i + k) st'.
Proof.
  induction n as [| n IH]; intros i st k Hlen Hb Hk; [lia |].
  cbn [roll_loop].
  assert (Hw : window_state w values i (roll_step w values i st))
    by (apply roll_step_window; [lia | exact Hb]).
  destruct k as [| k]; cbn [nth_error].
  - exists (roll_step w values i st). rewrite Nat.add_0_r. now split.
  - destruct (IH (S i) (roll_step w values i st) k) as [st' [Hnth Hst]];
      [lia | right; now replace (S i - 1)%nat with i by lia | lia |].
    exists st'. split; [exact Hnth |].
    now replace (i + S k)%nat with (S i + k)%nat by lia.
Qed.

End RollingInvariant.

Lemma firstn_shorter {A : Type} (l l' : list A) (m m' : nat) :
  (m' <= m)%nat -> firstn m l = firstn m l' -> firstn m' l = firstn m' l'.
Proof.
  intros Hle H.
  replace m' with (Nat.min m' m) by lia.
  rewrite <- !firstn_firstn. now rewrite H.
Qed.

Lemma roll_step_prefix (w : nat) (l l' : list Q) (i : nat) (st : roll_state) :
  firstn (i + 1) l = firstn (i + 1) l' -> roll_step w l i st = roll_step w l' i st.
Proof.
  intros H. unfold roll_step, win_start, win_end.
  rewrite (slice_prefix l l' (i + 1 - w) (i + 1) (i + 1)) by (lia || exact H).
  rewrite (slice_prefix l l' (i - 1 + 1) (i + 1) (i + 1)) by (lia || exact H).
  rewrite (slice_prefix l l' (i - 1 + 1 - w) (i + 1 - w) (i + 1)) by (lia || exact H).
  reflexivity.
Qed.

(** The loop is causal: its [k]-th output reads the values up to the
    position it is written for, and nothing after. *)
Lemma roll_loop_causal (w minp : nat) (l l' : list Q) (k : nat) :
  forall (n n' i : nat) (st : roll_state),
    (k < n)%nat -> (k < n')%nat ->
    firstn (i + k + 1) l = firstn (i + k + 1) l' ->
    nth_error (roll_loop w minp l i n st) k
    = nth_error (roll_loop w minp l' i n' st) k.
Proof.
  induction k as [| k IH]; intros n n' i st Hn Hn' Hpre;
    destruct n as [| n]; try lia; destruct n' as [| n']; try lia;
    cbn [roll_loop nth_error].
  - rewrite (roll_step_prefix w l l' i st); [reflexivity |].
    now rewrite Nat.add_0_r in Hpre.
  - rewrite (roll_step_prefix w l l' i st)
      by (apply (firstn_shorter l l' (i + S k + 1)); [lia | exact Hpre]).
    apply IH; [lia | lia |].
    now replace (S i + k + 1)%nat with (i + S k + 1)%nat by lia.
Qed.

Lemma runs_column_length (s : list Observation) :
  List.length (runs_column s) = List.length s.
Proof. unfold runs_column. apply length_map. Qed.

(** C4.  At a position [i] of a team series the rolling average is the
    undefined marker when [i < 4], and for [i >= 4] it is a number, the
    arithmetic mean of [team_runs] over the positions [i-4 .. i].  It is
    causal: any series with the same observations up to [i] has the same
    rolling average at [i]. *)
Theorem rolling_avg_window_mean (s : list Observation) (i : nat)
    (Hi : (i < List.length s)%nat) :
  ((i < 4)%nat -> nth_error (rolling_avg s) i = Some None) /\
  ((4 <= i)%nat ->
     exists q, nth_error (rolling_avg s) i = Some (Some q) /\
               (q == window_mean (runs_column s) i)%Q) /\
  (forall s' : list Observation,
     firstn (i + 1) s' = firstn (i + 1) s ->
     nth_error (rolling_avg s') i = nth_error (rolling_avg s) i).
Proof.
  assert (Hlen := runs_column_length s).
  destruct (roll_loop_nth 5 (runs_column s) ltac:(lia) 5
              (List.length (runs_column s)) 0 roll_init i)
    as [st [Hnth [Hnobs Hsum]]]; [lia | now left | lia |].
  unfold rolling_avg, rolling_mean. cbn [Nat.add] in Hnobs, Hsum.
  unfold win_end, win_start in Hnobs, Hsum.
  split; [| split].
  - intros Hsmall. rewrite Hnth. f_equal. unfold calc_mean.
    rewrite Hnobs. replace (5 <=? i + 1 - (i + 1 - 5))%nat with false; [reflexivity |].
    symmetry. apply Nat.leb_gt. lia.
  - intros Hbig. rewrite Hnth. unfold calc_mean.
    assert (Hn5 : nobs st = 5%nat) by lia. rewrite Hn5. cbn [Nat.leb Nat.ltb andb].
    eexists. split; [reflexivity |].
    unfold window_mean. rewrite Hsum.
    replace (i + 1 - 5)%nat with (i - 4)%nat by lia. reflexivity.
  - intros s' Hpre.
    assert (Hi' : (i < List.length s')%nat).
    { apply (f_equal (@List.length _)) in Hpre.
      rewrite !length_firstn in Hpre. lia. }
    unfold rolling_avg, rolling_mean.
    apply roll_loop_causal; rewrite ?runs_column_length; try lia.
    unfold runs_column. rewrite !firstn_map. cbn [Nat.add]. now rewrite Hpre.
Qed.

Example rolling_avg_sample :
  rolling_avg (series_of [10; 20; 30; 40; 50; 60])
  = [None; None; None; None; Some (150 # 5)%Q; Some (200 # 5)%Q].
Proof. vm_compute. reflexivity. Qed.

Lemma rolling_avg_window_mean_witness :
  exists q, nth_error (rolling_avg (series_of [10; 20; 30; 40; 50; 60])) 5
            = Some (Some q) /\ (q == 40)%Q.
Proof.
  destruct (rolling_avg_window_mean (series_of [10; 20; 30; 40; 50; 60]) 5)
    as (_ & H & _); [cbn; lia |].
  destruct (H ltac:(lia)) as [q [Hq Hm]].
  exists q. split; [exact Hq |]. rewrite Hm. vm_compute. reflexivity.
Defined.

(** *** Outliers *)



Section ZScores.

Local Open Scope R_scope.










End ZScores.

Section ExactMask.

Local Open Scope R_scope.



Variable a : list Z.
Let n : Z := Z.of_nat (List.length a).
Hypothesis n_pos : (0 < n)%Z.







End ExactMask.


(** The fuel of the two loops of the sum is enough: the loop over the
    blocks leaves fewer than eight elements, and the cuts in two never
    reach the end of their fuel. *)
Lemma sum_blocks_rest (fuel : nat) : forall r l : list float,
  (List.length l <= fuel)%nat ->
  (List.length (snd (sum_blocks fuel r l)) < 8)%nat.
Proof.
  induction fuel as [| fuel IH]; intros r l Hlen; cbn [sum_blocks].
  - cbn. lia.
  - destruct (8 <=? List.length l)%nat eqn:E.
    + apply IH. rewrite length_skipn. lia.
    + apply Nat.leb_gt in E. exact E.
Qed.

Lemma pairwise_sum_unfold (fuel : nat) (l : list float) :
  pairwise_sum fuel l
  = if (List.length l <? 8)%nat then sum_from 0%float l
    else if (List.length l <=? 128)%nat then
      let '(r, rest) := sum_blocks (List.length l) (firstn 8 l) (skipn 8 l) in
      sum_from (sum_lanes r) rest
    else
      match fuel with
      | O => 0%float
      | S fuel' =>
          PrimFloat.add
            (pairwise_sum fuel'
               (firstn (List.length l / 2 - (List.length l / 2) mod 8) l))
            (pairwise_sum fuel'
               (skipn (List.length l / 2 - (List.length l / 2) mod 8) l))
      end.
Proof. destruct fuel; reflexivity. Qed.

Lemma pairwise_sum_fuel (fuel : nat) : forall (l : list float) (fuel' : nat),
  (List.length l <= fuel + 128)%nat -> (fuel <= fuel')%nat ->
  pairwise_sum fuel' l = pairwise_sum fuel l.
Proof.
  induction fuel as [| fuel IH]; intros l fuel' Hlen Hf;
    rewrite (pairwise_sum_unfold fuel' l);
    [rewrite (pairwise_sum_unfold 0 l) | rewrite (pairwise_sum_unfold (S fuel) l)];
    destruct (List.length l <? 8)%nat; try reflexivity;
    destruct (List.length l <=? 128)%nat eqn:E; try reflexivity;
    apply Nat.leb_gt in E; [lia |].
  destruct fuel' as [| fuel']; [lia |].
  pose proof (Nat.div_mod_eq (List.length l) 2) as Hhalf.
  pose proof (Nat.mod_upper_bound (List.length l) 2) as Hm2.
  pose proof (Nat.Div0.mod_le (List.length l / 2) 8) as Hmod.
  pose proof (Nat.mod_upper_bound (List.length l / 2) 8) as Hm8.
  set (n := List.length l) in *.
  set (h := (n / 2)%nat) in *. set (m := (h mod 8)%nat) in *.
  set (b := (n mod 2)%nat) in *.
  f_equal; apply IH; try lia.
  - rewrite length_firstn. fold n. lia.
  - rewrite length_skipn. fold n. lia.
Qed.







(** A score of 2 that is computed exactly is not flagged: here the mean
    is 88 and the standard deviation 156, both binary64 numbers. *)
Example outliers_sample_scores :
  map (b64_score [10; 10; 10; 10; 400]) [10; 400] = [(-0.5)%float; 2%float] /\
  outliers (series_of [10; 10; 10; 10; 400]) = [].
Proof. split; vm_compute; reflexivity. Qed.

Example outliers_constant_series :
  outliers (series_of [150; 150; 150]) = [] /\
  outliers (series_of [150]) = [].
Proof. split; vm_compute; reflexivity. Qed.

(** A series long enough for the sum to go through the running sums of
    eight and the cut in two. *)
Example outliers_long_series :
  map team_runs (outliers (series_of (map Z.of_nat (seq 1 300) ++ [1000]))) = [1000].
Proof. vm_compute. reflexivity. Qed.

Section PopulationOrSample.

Local Open Scope R_scope.





End PopulationOrSample.



(** *** Trend prediction *)

Section LeastSquares.

Local Open Scope Q_scope.

Lemma sse_decompose (a b a' b' : Q) (X y : list Q) :
  sse a' b' X y
  == sse a b X y
     + 2 * ((a - a') * sum_res a b X y + (b - b') * sum_res_x a b X y)
     + sum_sq_line (a - a') (b - b') X y.
Proof.
  revert y. induction X as [| x X IH]; intros [| v y]; cbn; try ring.
  rewrite IH. ring.
Qed.

Lemma sum_sq_line_nonneg (da db : Q) (X y : list Q) :
  0 <= sum_sq_line da db X y.
Proof.
  revert y. induction X as [| x X IH]; intros [| v y]; cbn; try apply Qle_refl.
  specialize (IH y). generalize dependent (da + db * x). intros t. Lqa.nra.
Qed.

(** A line whose residuals are orthogonal to [1] and to [x] is a
    least-squares line. *)
Lemma normal_equations_optimal (a b : Q) (X y : list Q) :
  sum_res a b X y == 0 -> sum_res_x a b X y == 0 ->
  least_squares_line X y a b.
Proof.
  intros H1 H2 a' b'. rewrite (sse_decompose a b a' b'), H1, H2.
  pose proof (sum_sq_line_nonneg (a - a') (b - b') X y). Lqa.lra.
Qed.

Lemma Qlen_cons {A : Type} (x : A) (l : list A) : Qlen (x :: l) == Qlen l + 1.
Proof.
  unfold Qlen. cbn [List.length]. rewrite Nat2Z.inj_succ. unfold Z.succ.
  rewrite inject_Z_plus. reflexivity.
Qed.

Lemma Qlen_nil {A : Type} : Qlen (@nil A) == 0.
Proof. reflexivity. Qed.

Lemma sum_res_sums (a b : Q) (X y : list Q) :
  List.length X = List.length y ->
  sum_res a b X y == Qsum y - Qlen X * a - b * Qsum X.
Proof.
  revert y. induction X as [| x X IH]; intros [| v y] Hlen; try discriminate.
  - cbn [sum_res Qsum]. rewrite Qlen_nil. ring.
  - cbn [sum_res Qsum]. rewrite Qlen_cons, IH by (now injection Hlen). ring.
Qed.

Lemma sum_res_x_sums (a b : Q) (X y : list Q) :
  List.length X = List.length y ->
  sum_res_x a b X y == dot X y - a * Qsum X - b * dot X X.
Proof.
  revert y. induction X as [| x X IH]; intros [| v y] Hlen; try discriminate.
  - cbn [sum_res_x Qsum dot]. ring.
  - cbn [sum_res_x Qsum dot]. rewrite IH by (now injection Hlen). ring.
Qed.

Lemma dot_centred (m k : Q) (X y : list Q) :
  List.length X = List.length y ->
  dot (map (fun x => x - m) X) (map (fun v => v - k) y)
  == dot X y - m * Qsum y - k * Qsum X + Qlen X * m * k.
Proof.
  revert y. induction X as [| x X IH]; intros [| v y] Hlen; try discriminate.
  - cbn [map dot Qsum]. rewrite Qlen_nil. ring.
  - cbn [map dot Qsum]. rewrite Qlen_cons, IH by (now injection Hlen). ring.
Qed.

Lemma dot_self_nonneg (l : list Q) : 0 <= dot l l.
Proof.
  induction l as [| x l IH]; cbn; [apply Qle_refl | Lqa.nra].
Qed.

Lemma Qsum_nonneg (l : list Q) : (forall x, In x l -> 0 <= x) -> 0 <= Qsum l.
Proof.
  induction l as [| x l IH]; intros H; cbn; [apply Qle_refl |].
  pose proof (H x (or_introl eq_refl)).
  assert (0 <= Qsum l) by (apply IH; intros; apply H; now right). Lqa.lra.
Qed.

End LeastSquares.

Section FitIsLeastSquares.

Local Open Scope Q_scope.

Lemma Qmean_Qlen (l : list Q) : Qmean l = Qsum l / Qlen l.
Proof. reflexivity. Qed.

(** The fitted line satisfies the normal equations. *)
Lemma fit_normal_equations (X y : list Q) :
  List.length X = List.length y ->
  ~ Qlen X == 0 ->
  ~ dot (map (fun x => x - Qmean X) X) (map (fun x => x - Qmean X) X) == 0 ->
  sum_res (intercept_ (fit X y)) (coef_ (fit X y)) X y == 0 /\
  sum_res_x (intercept_ (fit X y)) (coef_ (fit X y)) X y == 0.
Proof.
  intros Hlen HN Hxx.
  assert (Hyl : Qlen y = Qlen X) by (unfold Qlen; now rewrite Hlen).
  pose proof (dot_centred (Qmean X) (Qmean y) X y Hlen) as Hcxy.
  pose proof (dot_centred (Qmean X) (Qmean X) X X eq_refl) as Hcxx.
  unfold fit, lstsq1. cbn [intercept_ coef_].
  destruct (Qeq_bool _ 0) eqn:Hb; [apply Qeq_bool_iff in Hb; contradiction |].
  clear Hb.
  set (Cxy := dot (map (fun x => x - Qmean X) X) (map (fun v => v - Qmean y) y)) in *.
  set (Cxx := dot (map (fun x => x - Qmean X) X) (map (fun x => x - Qmean X) X)) in *.
  rewrite sum_res_sums, sum_res_x_sums by exact Hlen.
  rewrite !Qmean_Qlen, Hyl in *.
  set (N := Qlen X) in *. set (Sx := Qsum X) in *. set (Sy := Qsum y) in *.
  set (Sxy := dot X y) in *. set (Sxx := dot X X) in *.
  split.
  - field. split; assumption.
  - assert (E : Sxy - (Sy / N - Sx / N * (Cxy / Cxx)) * Sx - Cxy / Cxx * Sxx
                == (Sxy - Sx / N * Sy - Sy / N * Sx + N * (Sx / N) * (Sy / N))
                   - Cxy / Cxx
                     * (Sxx - Sx / N * Sx - Sx / N * Sx + N * (Sx / N) * (Sx / N)))
      by (field; split; assumption).
    rewrite E, <- Hcxy, <- Hcxx. field. assumption.
Qed.

Lemma arange_length (n : nat) : List.length (arange n) = n.
Proof. unfold arange. now rewrite length_map, length_seq. Qed.

Lemma arange_two (n : nat) :
  arange (S (S n)) = 0 :: 1 :: map (fun i => inject_Z (Z.of_nat i)) (seq 2 n).
Proof. reflexivity. Qed.

(** The indices of two or more observations are not all equal to their
    mean. *)
Lemma arange_spread (n : nat) :
  (2 <= n)%nat ->
  ~ dot (map (fun x => x - Qmean (arange n)) (arange n))
        (map (fun x => x - Qmean (arange n)) (arange n)) == 0.
Proof.
  intros Hn. generalize (Qmean (arange n)). intros m.
  destruct n as [| [| n]]; try lia.
  rewrite arange_two. cbn [map dot].
  match goal with |- context [dot ?l ?l] => pose proof (dot_self_nonneg l) as Hr;
    generalize dependent (dot l l) end.
  intros r Hr H. Lqa.nra.
Qed.

Lemma Qlen_nonzero {A : Type} (l : list A) : l <> [] -> ~ Qlen l == 0.
Proof.
  destruct l as [| x l]; [congruence |]. intros _.
  unfold Qlen. cbn [List.length]. rewrite Nat2Z.inj_succ.
  unfold Qeq. cbn. lia.
Qed.

Lemma Qsquare_nonneg (u : Q) : 0 <= u * u.
Proof. Lqa.nra. Qed.

Lemma Qsquare_zero (u : Q) : u * u <= 0 -> u == 0.
Proof.
  intros H. pose proof (Qsquare_nonneg u) as H0.
  assert (E : u * u == 0) by Lqa.lra.
  apply Qmult_integral in E. tauto.
Qed.

(** On points that start at the abscissas 0 and 1, a least-squares line
    is the line of the normal equations. *)
Lemma least_squares_unique (X y : list Q) (v0 v1 a b a' b' : Q) :
  sum_res a b (0 :: 1 :: X) (v0 :: v1 :: y) == 0 ->
  sum_res_x a b (0 :: 1 :: X) (v0 :: v1 :: y) == 0 ->
  least_squares_line (0 :: 1 :: X) (v0 :: v1 :: y) a' b' ->
  a' == a /\ b' == b.
Proof.
  intros H1 H2 Hls. specialize (Hls a b).
  rewrite (sse_decompose a b a' b'), H1, H2 in Hls.
  cbn [sum_sq_line] in Hls.
  pose proof (sum_sq_line_nonneg (a - a') (b - b') X y) as Hr.
  generalize dependent (sum_sq_line (a - a') (b - b') X y). intros r Hls Hr.
  generalize dependent (sse a b (0 :: 1 :: X) (v0 :: v1 :: y)). intros e Hls.
  pose proof (Qsquare_nonneg (a - a')) as Hu.
  pose proof (Qsquare_nonneg ((a - a') + (b - b'))) as Hw.
  assert (Ha : a - a' == 0) by (apply Qsquare_zero; Lqa.lra).
  assert (Hb : (a - a') + (b - b') == 0) by (apply Qsquare_zero; Lqa.lra).
  split; Lqa.lra.
Qed.

End FitIsLeastSquares.

(** C6.  For a team series of [n >= 5] observations the prediction is the
    value at index [n] of a line [a + b * x] that is the least-squares
    line of [team_runs] against the indices [0 .. n-1] (no line has a
    smaller sum of squared residuals, and it is the only such line); for
    a shorter series there is no prediction, only the notice of
    insufficient data; and on [10, 20, 30, 40, 50] the prediction is 60. *)
Theorem trend_prediction_least_squares (s : list Observation) :
  ((5 <= List.length s)%nat ->
     exists a b p : Q,
       least_squares_line (arange (List.length s)) (runs_column s) a b /\
       (forall a' b' : Q,
          least_squares_line (arange (List.length s)) (runs_column s) a' b' ->
          (a' == a /\ b' == b)%Q) /\
       predict_next s = Some p /\
       (p == a + b * inject_Z (Z.of_nat (List.length s)))%Q) /\
  ((List.length s < 5)%nat -> predict_next s = None) /\
  (exists p : Q,
     predict_next (series_of [10; 20; 30; 40; 50]) = Some p /\ (p == 60)%Q).
Proof.
  split; [| split].
  - intros Hn.
    set (m := fit (arange (List.length s)) (runs_column s)).
    destruct (fit_normal_equations (arange (List.length s)) (runs_column s))
      as [H1 H2].
    + now rewrite arange_length, runs_column_length.
    + apply Qlen_nonzero. intros H. apply (f_equal (@List.length _)) in H.
      rewrite arange_length in H. cbn in H. lia.
    + apply arange_spread. lia.
    + fold m in H1, H2.
      exists (intercept_ m), (coef_ m),
        (predict m (inject_Z (Z.of_nat (List.length s)))).
      split; [now apply normal_equations_optimal |].
      split; [| split].
      * intros a' b' Hls.
        destruct s as [| o0 [| o1 s']]; cbn [List.length] in Hn; try lia.
        cbn [List.length] in *. rewrite arange_two in *.
        cbn [runs_column map] in *.
        eapply least_squares_unique; eassumption.
      * unfold predict_next.
        destruct (Nat.leb_spec 5 (List.length s)); [reflexivity | lia].
      * unfold predict. ring.
  - intros Hn. unfold predict_next.
    destruct (Nat.leb_spec 5 (List.length s)); [lia | reflexivity].
  - eexists. split; [vm_compute; reflexivity | vm_compute; reflexivity].
Qed.

Example predict_next_constant :
  exists p : Q, predict_next (series_of [150; 150; 150; 150; 150; 150]) = Some p
                /\ (p == 150)%Q.
Proof. eexists. split; vm_compute; reflexivity. Qed.

Example predict_next_short :
  predict_next (series_of [10; 20; 30; 40]) = None.
Proof. reflexivity. Qed.

(** *** Player scores *)

Section ColumnExtrema.

Local Open Scope Q_scope.

Lemma Qsign_zero (q : Q) : q == 0 -> Qsign q = Eq.
Proof. intros H. unfold Qsign. now apply Qeq_alt. Qed.

Lemma Qsign_pos (q : Q) : 0 < q -> Qsign q = Gt.
Proof. intros H. unfold Qsign. now apply Qgt_alt. Qed.

Lemma fdiv_pos (a r : Q) : 0 < r -> fdiv (Fin a) (Fin r) = Fin (a / r).
Proof. intros H. cbn. now rewrite Qsign_pos. Qed.

Lemma fdiv_zero_zero (a r : Q) : a == 0 -> r == 0 -> fdiv (Fin a) (Fin r) = NaN.
Proof. intros Ha Hr. cbn. now rewrite (Qsign_zero r), (Qsign_zero a). Qed.

Lemma fadd_nan_r (v : fnum Q) : fadd v NaN = NaN.
Proof. destruct v; reflexivity. Qed.

Lemma Qmax_cases (a b : Q) :
  (Qmax a b = a \/ Qmax a b = b) /\ a <= Qmax a b /\ b <= Qmax a b.
Proof.
  unfold Qmax. destruct (Qle_bool a b) eqn:H.
  - apply Qle_bool_iff in H. repeat split; auto; Lqa.lra.
  - assert (~ a <= b) by (rewrite <- Qle_bool_iff; congruence).
    repeat split; auto; Lqa.lra.
Qed.

Lemma Qmin_cases (a b : Q) :
  (Qmin a b = a \/ Qmin a b = b) /\ Qmin a b <= a /\ Qmin a b <= b.
Proof.
  unfold Qmin. destruct (Qle_bool a b) eqn:H.
  - apply Qle_bool_iff in H. repeat split; auto; Lqa.lra.
  - assert (~ a <= b) by (rewrite <- Qle_bool_iff; congruence).
    repeat split; auto; Lqa.lra.
Qed.

Lemma fold_Qmax_spec (l : list Q) :
  forall x, In (fold_left Qmax l x) (x :: l) /\
            forall y, In y (x :: l) -> y <= fold_left Qmax l x.
Proof.
  induction l as [| z l IH]; intros x; cbn [fold_left].
  - split; [now left |]. intros y [<- | []]. apply Qle_refl.
  - destruct (IH (Qmax x z)) as [Hin Hub].
    destruct (Qmax_cases x z) as [Hc [Hx Hz]].
    split.
    + destruct Hin as [Hin | Hin]; [| right; now right].
      rewrite <- Hin. destruct Hc as [-> | ->]; [now left | right; now left].
    + intros y [<- | [<- | Hy]].
      * eapply Qle_trans; [exact Hx | apply Hub; now left].
      * eapply Qle_trans; [exact Hz | apply Hub; now left].
      * apply Hub. now right.
Qed.

Lemma fold_Qmin_spec (l : list Q) :
  forall x, In (fold_left Qmin l x) (x :: l) /\
            forall y, In y (x :: l) -> fold_left Qmin l x <= y.
Proof.
  induction l as [| z l IH]; intros x; cbn [fold_left].
  - split; [now left |]. intros y [<- | []]. apply Qle_refl.
  - destruct (IH (Qmin x z)) as [Hin Hlb].
    destruct (Qmin_cases x z) as [Hc [Hx Hz]].
    split.
    + destruct Hin as [Hin | Hin]; [| right; now right].
      rewrite <- Hin. destruct Hc as [-> | ->]; [now left | right; now left].
    + intros y [<- | [<- | Hy]].
      * eapply Qle_trans; [apply Hlb; now left | exact Hx].
      * eapply Qle_trans; [apply Hlb; now left | exact Hz].
      * apply Hlb. now right.
Qed.

Lemma col_max_spec (l : list Q) :
  l <> [] ->
  exists r, col_max l = Fin r /\ In r l /\ forall y, In y l -> y <= r.
Proof.
  destruct l as [| x l]; [congruence |]. intros _.
  exists (fold_left Qmax l x). split; [reflexivity |]. apply fold_Qmax_spec.
Qed.

Lemma col_min_spec (l : list Q) :
  l <> [] ->
  exists r, col_min l = Fin r /\ In r l /\ forall y, In y l -> r <= y.
Proof.
  destruct l as [| x l]; [congruence |]. intros _.
  exists (fold_left Qmin l x). split; [reflexivity |]. apply fold_Qmin_spec.
Qed.

(** [Series.max()] is the greatest entry, whichever way it is named. *)
Lemma col_max_is_max (l : list Q) (q : Q) :
  is_max_of q l -> exists r, col_max l = Fin r /\ r == q.
Proof.
  intros [[x [Hx Hxq]] Hub].
  destruct (col_max_spec l) as [r [Hr [Hin Hge]]].
  { intros ->. destruct Hx. }
  exists r. split; [exact Hr |].
  apply Qle_antisym; [now apply Hub |].
  rewrite <- Hxq. now apply Hge.
Qed.

Lemma col_min_is_min (l : list Q) (q : Q) :
  is_min_of q l -> exists r, col_min l = Fin r /\ r == q.
Proof.
  intros [[x [Hx Hxq]] Hlb].
  destruct (col_min_spec l) as [r [Hr [Hin Hle]]].
  { intros ->. destruct Hx. }
  exists r. split; [exact Hr |].
  apply Qle_antisym; [| now apply Hlb].
  rewrite <- Hxq. now apply Hle.
Qed.

End ColumnExtrema.

Section Scores.

Local Open Scope Q_scope.

Variable players : list PlayerRecord.
Variable p : PlayerRecord.

Lemma bat_score_value (mr ms : Q) :
  col_max (map runs players) = Fin mr -> 0 < mr ->
  col_max (map strike_rate players) = Fin ms -> 0 < ms ->
  bat_score players p
  = Fin (runs p / mr * (6 # 10) + strike_rate p / ms * (4 # 10)).
Proof.
  intros Hr Hrp Hs Hsp. unfold bat_score.
  rewrite Hr, Hs, !fdiv_pos by assumption. reflexivity.
Qed.

Lemma bowl_score_value (mw me : Q) :
  col_max (map wickets players) = Fin mw -> 0 < mw ->
  col_min (map economy players) = Fin me -> 0 < economy p ->
  bowl_score players p
  = Fin (wickets p / mw * (7 # 10) + me / economy p * (3 # 10)).
Proof.
  intros Hw Hwp He Hep. unfold bowl_score.
  rewrite Hw, He, !fdiv_pos by assumption. reflexivity.
Qed.

Lemma performance_index_value (b c : Q) :
  bat_score players p = Fin b -> bowl_score players p = Fin c ->
  performance_index players p = Fin ((b + c) / 2).
Proof.
  intros Hb Hc. unfold performance_index. rewrite Hb, Hc. cbn [fadd].
  apply fdiv_pos. reflexivity.
Qed.

End Scores.

(** C7.  In a player table, a player whose runs and strike rate are the
    (positive) maxima of their columns has [bat_score] 1; if moreover the
    player's wickets are the (positive) maximum and the player's economy
    the (positive) minimum of their columns, [bowl_score] and
    [performance_index] are 1 as well. *)
Theorem best_player_scores_one (players : list PlayerRecord) (p : PlayerRecord)
    (Hruns : is_max_of (runs p) (map runs players))
    (Hruns_pos : (0 < runs p)%Q)
    (Hsr : is_max_of (strike_rate p) (map strike_rate players))
    (Hsr_pos : (0 < strike_rate p)%Q) :
  is_num (bat_score players p) 1 /\
  (is_max_of (wickets p) (map wickets players) -> (0 < wickets p)%Q ->
   is_min_of (economy p) (map economy players) -> (0 < economy p)%Q ->
   is_num (bowl_score players p) 1 /\ is_num (performance_index players p) 1).
Proof.
  destruct (col_max_is_max _ _ Hruns) as [mr [Hmr Er]].
  destruct (col_max_is_max _ _ Hsr) as [ms [Hms Es]].
  assert (Hbat : bat_score players p
                 = Fin (runs p / mr * (6 # 10) + strike_rate p / ms * (4 # 10))%Q).
  { apply bat_score_value; auto; [rewrite Er | rewrite Es]; assumption. }
  assert (Hbat1 : (runs p / mr * (6 # 10) + strike_rate p / ms * (4 # 10) == 1)%Q).
  { rewrite Er, Es. field. split; Lqa.lra. }
  split.
  - rewrite Hbat. exact Hbat1.
  - intros Hw Hw_pos He He_pos.
    destruct (col_max_is_max _ _ Hw) as [mw [Hmw Ew]].
    destruct (col_min_is_min _ _ He) as [me [Hme Ee]].
    assert (Hbowl : bowl_score players p
                    = Fin (wickets p / mw * (7 # 10) + me / economy p * (3 # 10))%Q).
    { apply bowl_score_value; auto. rewrite Ew. assumption. }
    assert (Hbowl1 : (wickets p / mw * (7 # 10) + me / economy p * (3 # 10) == 1)%Q).
    { rewrite Ew, Ee. field. split; Lqa.lra. }
    split.
    + rewrite Hbowl. exact Hbowl1.
    + rewrite (performance_index_value players p _ _ Hbat Hbowl). cbn [is_num].
      rewrite Hbat1, Hbowl1. reflexivity.
Qed.

Lemma best_player_scores_one_witness :
  is_num (bat_score sample_players kohli) 1 /\
  is_num (performance_index sample_players kohli) 1.
Proof.
  assert (Hmax : forall f : PlayerRecord -> Q,
             (f bumrah <= f kohli)%Q -> is_max_of (f kohli) (map f sample_players)).
  { intros f Hle. split.
    - exists (f kohli). split; [now left | reflexivity].
    - intros x [<- | [<- | []]]; [apply Qle_refl | exact Hle]. }
  destruct (best_player_scores_one sample_players kohli) as [Hb Hp].
  - apply Hmax. vm_compute. discriminate.
  - reflexivity.
  - apply Hmax. vm_compute. discriminate.
  - reflexivity.
  - split; [exact Hb |].
    apply Hp.
    + apply Hmax. vm_compute. discriminate.
    + reflexivity.
    + split.
      * exists (economy kohli). split; [now left | reflexivity].
      * intros x [<- | [<- | []]]; vm_compute; discriminate.
    + reflexivity.
Defined.

Example scores_sample :
  performance_index sample_players bumrah
  = Fin ((50 / 600 * (6 # 10) + (90 # 1) / (150 # 1) * (4 # 10)
          + (8 / 10 * (7 # 10) + (6 # 1) / (13 # 2) * (3 # 10))) / 2)%Q.
Proof. reflexivity. Qed.

Section DegenerateTables.

Local Open Scope Q_scope.

Variable players : list PlayerRecord.
Variable p : PlayerRecord.
Hypothesis p_in : In p players.
Hypothesis table_non_negative : forall q, In q players -> non_negative q.

Lemma zero_max_column (f : PlayerRecord -> Q) :
  (forall q, In q players -> 0 <= f q) ->
  is_max_of 0 (map f players) ->
  fdiv (Fin (f p)) (col_max (map f players)) = NaN.
Proof.
  intros Hnn Hmax.
  destruct (col_max_is_max _ _ Hmax) as [r [Hr Er]]. rewrite Hr.
  apply fdiv_zero_zero; [| exact Er].
  apply Qle_antisym; [| now apply Hnn].
  apply Hmax. now apply in_map.
Qed.

Lemma positive_max_column (f : PlayerRecord -> Q) :
  (exists q, In q players /\ 0 < f q) ->
  exists r, col_max (map f players) = Fin r /\ 0 < r.
Proof.
  intros [q [Hq Hpos]].
  destruct (col_max_spec (map f players)) as [r [Hr [_ Hub]]].
  { intros H. apply (in_map f) in Hq. rewrite H in Hq. destruct Hq. }
  exists r. split; [exact Hr |].
  eapply Qlt_le_trans; [exact Hpos | apply Hub; now apply in_map].
Qed.

Lemma zero_economy_ratio :
  economy p == 0 ->
  fdiv (col_min (map economy players)) (Fin (economy p)) = NaN.
Proof.
  intros He.
  destruct (col_min_spec (map economy players)) as [r [Hr [Hin Hlb]]].
  { intros H. apply (in_map economy) in p_in. rewrite H in p_in. destruct p_in. }
  rewrite Hr. apply fdiv_zero_zero; [| exact He].
  apply Qle_antisym.
  - rewrite <- He. apply Hlb. now apply in_map.
  - apply in_map_iff in Hin. destruct Hin as [q [<- Hq]].
    apply (table_non_negative q Hq).
Qed.

End DegenerateTables.

(** C2 (as the script has it).  The scorer has no guard and no fallback
    value.  In a table of non-negative values: if the maximum of the runs
    or of the strike rates is 0, every player's [bat_score] is [NaN]; if
    the maximum of the wickets is 0 or the player's own economy is 0, the
    player's [bowl_score] is [NaN]; a [NaN] sub-score makes the
    [performance_index] [NaN].  If some player has positive runs, some a
    positive strike rate, some a positive number of wickets, and the
    player's economy is positive, the three scores are numbers. *)
Theorem degenerate_tables_give_nan (players : list PlayerRecord) (p : PlayerRecord)
    (p_in : In p players)
    (table_non_negative : forall q, In q players -> non_negative q) :
  (is_max_of 0 (map runs players) \/ is_max_of 0 (map strike_rate players) ->
     bat_score players p = NaN) /\
  (is_max_of 0 (map wickets players) \/ (economy p == 0)%Q ->
     bowl_score players p = NaN) /\
  (bat_score players p = NaN \/ bowl_score players p = NaN ->
     performance_index players p = NaN) /\
  ((exists q, In q players /\ (0 < runs q)%Q) ->
   (exists q, In q players /\ (0 < strike_rate q)%Q) ->
   (exists q, In q players /\ (0 < wickets q)%Q) ->
   (0 < economy p)%Q ->
     is_finite (bat_score players p) /\
     is_finite (bowl_score players p) /\
     is_finite (performance_index players p)).
Proof.
  split; [| split; [| split]].
  - intros [H | H]; unfold bat_score.
    + rewrite (zero_max_column players p p_in runs); [reflexivity | | exact H].
      intros q Hq. apply (table_non_negative q Hq).
    + rewrite (zero_max_column players p p_in strike_rate);
        [cbn [fmul]; apply fadd_nan_r | | exact H].
      intros q Hq. apply (table_non_negative q Hq).
  - intros [H | H]; unfold bowl_score.
    + rewrite (zero_max_column players p p_in wickets); [reflexivity | | exact H].
      intros q Hq. apply (table_non_negative q Hq).
    + rewrite (zero_economy_ratio players p p_in table_non_negative H).
      cbn [fmul]. apply fadd_nan_r.
  - intros [H | H]; unfold performance_index; rewrite H;
      [reflexivity | rewrite fadd_nan_r; reflexivity].
  - intros Hr Hs Hw He.
    destruct (positive_max_column players runs Hr) as [mr [Hmr Hmr_pos]].
    destruct (positive_max_column players strike_rate Hs) as [ms [Hms Hms_pos]].
    destruct (positive_max_column players wickets Hw) as [mw [Hmw Hmw_pos]].
    destruct (col_min_spec (map economy players)) as [me [Hme _]].
    { intros H. apply (in_map economy) in p_in. rewrite H in p_in. destruct p_in. }
    pose proof (bat_score_value players p mr ms Hmr Hmr_pos Hms Hms_pos) as Hbat.
    pose proof (bowl_score_value players p mw me Hmw Hmw_pos Hme He) as Hbowl.
    rewrite (performance_index_value players p _ _ Hbat Hbowl), Hbat, Hbowl.
    cbn. tauto.
Qed.

Lemma degenerate_tables_give_nan_witness :
  bat_score bowlers_only (mkPlayer "Bumrah" "MI" 0 8 0 (13 # 2)) = NaN.
Proof.
  destruct (degenerate_tables_give_nan bowlers_only
              (mkPlayer "Bumrah" "MI" 0 8 0 (13 # 2))) as (Hbat & _).
  - now left.
  - intros q [<- | [<- | []]]; unfold non_negative; cbn;
      repeat split; discriminate.
  - apply Hbat. left. split.
    + exists 0%Q. split; [now left | reflexivity].
    + intros x [<- | [<- | []]]; apply Qle_refl.
Defined.

(** C2, counterexample.  The maximum of the runs of [bowlers_only] is 0,
    and the scorer writes no fallback: [bat_score] and
    [performance_index] are [NaN], not numbers. *)
Lemma zero_maximum_is_not_guarded :
  is_max_of 0 (map runs bowlers_only) /\
  (forall p, In p bowlers_only ->
     ~ is_finite (bat_score bowlers_only p) /\
     ~ is_finite (performance_index bowlers_only p)) /\
  bat_score bowlers_only (mkPlayer "Chahal" "RR" 0 12 0 (15 # 2)) = NaN /\
  performance_index bowlers_only (mkPlayer "Chahal" "RR" 0 12 0 (15 # 2)) = NaN.
Proof.
  split; [| split; [| split]].
  - split.
    + exists 0%Q. split; [now left | reflexivity].
    + intros x [<- | [<- | []]]; apply Qle_refl.
  - intros p [<- | [<- | []]]; split; vm_compute; tauto.
  - reflexivity.
  - reflexivity.
Qed.

(** *** Spot checks on binary64

    The embedding computes in exact arithmetic.  At the places where the
    properties above speak of exact values, binary64 agrees: the weights
    of each sub-score add up to exactly 1 (so a player at every column
    extremum scores exactly 1.0), [0/0] is [NaN], a positive number over 0
    is [inf], and no comparison selects a [NaN]. *)

Example binary64_best_scores_one :
  ((1 * 0x1.3333333333333p-1 + 1 * 0x1.999999999999ap-2 =? 1)
   && (1 * 0x1.6666666666666p-1 + 1 * 0x1.3333333333333p-2 =? 1)
   && ((1 + 1) / 2 =? 1))%float = true.
Proof. vm_compute. reflexivity. Qed.

Example binary64_division_by_zero :
  (PrimFloat.is_nan (0 / 0) && (5 / 0 =? infinity) && negb (2 <? 0 / 0))%float
  = true.
Proof. vm_compute. reflexivity. Qed.

(* ================================================================= *)
(** ** Part II, continued: properties of the rest of the script *)
(* ================================================================= *)

(** *** The order of the two sides *)

Lemma valid_runs_swap (r : MatchRecord) : valid_runs r -> valid_runs (swap_sides r).
Proof. unfold valid_runs. cbn. tauto. Qed.

(** X1.  The order in which a table lists the two sides of a match does
    not change the margin, and changes the winner on a tie only: with
    different runs the same team wins either way, with equal runs each
    listing names its own second team. *)
Theorem sides_matter_on_ties_only (r : MatchRecord) (Hv : valid_runs r) :
  margin (swap_sides r) = margin r /\
  (runs_team1 r <> runs_team2 r -> winner (swap_sides r) = winner r) /\
  (runs_team1 r = runs_team2 r ->
     winner r = team2 r /\ winner (swap_sides r) = team1 r).
Proof.
  rewrite (margin_abs r Hv), (margin_abs _ (valid_runs_swap r Hv)).
  unfold winner. cbn.
  destruct (Z.gtb_spec (runs_team1 r) (runs_team2 r)),
           (Z.gtb_spec (runs_team2 r) (runs_team1 r));
    repeat split; intros; try lia; auto.
Qed.

Lemma sides_matter_on_ties_only_witness :
  winner (swap_sides (mkMatch 2 200 "RCB" "CSK" "Chinnaswamy" 160 160))
  = "RCB"%string.
Proof.
  destruct (sides_matter_on_ties_only
              (mkMatch 2 200 "RCB" "CSK" "Chinnaswamy" 160 160)) as (_ & _ & H).
  - unfold valid_runs, int64_max. cbn. lia.
  - apply H. reflexivity.
Defined.

(** *** What can go wrong after the gate *)

Lemma mapM_raise {A B : Type} (f : A -> result B) (l : list A) (e : exn) :
  mapM f l = Raise e -> exists a, In a l /\ f a = Raise e.
Proof.
  induction l as [| a l IH]; cbn; [discriminate |].
  destruct (f a) as [b | e'] eqn:Hfa; cbn.
  - destruct (mapM f l) as [bs | e'']; cbn; [discriminate |].
    intros H. destruct IH as [a' [Hin Ha']]; [exact H |].
    exists a'. split; [now right | exact Ha'].
  - intros H. exists a. split; [now left | congruence].
Qed.

Lemma cell_gt_raises (a b : cell) (e : exn) : cell_gt a b = Raise e -> e = TypeError.
Proof. destruct a, b; cbn; congruence. Qed.

Lemma cell_absdiff_raises (a b : cell) (e : exn) :
  cell_absdiff a b = Raise e -> e = TypeError.
Proof. destruct a, b; cbn; congruence. Qed.

Section AfterTheGate.

Variable df : frame.
Hypothesis rect : rectangular df.
Hypothesis present : forall c, In c required_cols -> In c (columns df).

Lemma required_lookup (r : list cell) (c : string) :
  In r (rows df) -> In c required_cols -> exists v, lookup (columns df) r c = Ok v.
Proof.
  intros Hr Hc. apply lookup_present; [now apply present | now apply rect].
Qed.

Lemma winner_cell_raises (r : list cell) (e : exn) :
  In r (rows df) -> winner_cell df r = Raise e ->
  e = TypeError /\
  ~ (exists x y, lookup (columns df) r "runs_team1" = Ok (CInt x) /\
                 lookup (columns df) r "runs_team2" = Ok (CInt y)).
Proof.
  intros Hr. unfold winner_cell.
  destruct (required_lookup r "runs_team1" Hr) as [v1 H1]; [cbn; tauto |].
  destruct (required_lookup r "runs_team2" Hr) as [v2 H2]; [cbn; tauto |].
  destruct (required_lookup r "team1" Hr) as [t1 Ht1]; [cbn; tauto |].
  destruct (required_lookup r "team2" Hr) as [t2 Ht2]; [cbn; tauto |].
  rewrite H1, H2, Ht1, Ht2. cbn.
  destruct (cell_gt v1 v2) as [g | e'] eqn:Hg; cbn.
  - destruct g; discriminate.
  - intros H. injection H as <-. split; [eapply cell_gt_raises; eassumption |].
    intros [x [y [Hx Hy]]]. injection Hx as ->. injection Hy as ->. discriminate.
Qed.

Lemma margin_cell_raises (r : list cell) (e : exn) :
  In r (rows df) -> margin_cell df r = Raise e ->
  e = TypeError /\
  ~ (exists x y, lookup (columns df) r "runs_team1" = Ok (CInt x) /\
                 lookup (columns df) r "runs_team2" = Ok (CInt y)).
Proof.
  intros Hr. unfold margin_cell.
  destruct (required_lookup r "runs_team1" Hr) as [v1 H1]; [cbn; tauto |].
  destruct (required_lookup r "runs_team2" Hr) as [v2 H2]; [cbn; tauto |].
  rewrite H1, H2. cbn. intros H. split; [eapply cell_absdiff_raises; eassumption |].
  intros [x [y [Hx Hy]]]. injection Hx as ->. injection Hy as ->. discriminate.
Qed.

End AfterTheGate.

(** X2.  On a frame that has a row, in which every row has a cell for
    every column and none of the labels [runs_team1], [runs_team2],
    [team1], [team2] names two columns, lines 55-62 never raise a
    [KeyError]: either the gate stops the script, or every column the two
    calculated fields read is there.  The only exception that can escape
    is a [TypeError], and only on a frame whose runs columns are not both
    integers. *)
Theorem gate_rules_out_key_errors (df : frame) (rect : rectangular df)
    (Hrows : rows df <> [])
    (Honce : forall c, In c labels_read -> (occurrences c (columns df) <= 1)%nat) :
  preprocess df <> NotEmbedded /\
  (forall c done, preprocess df <> Crashed (KeyError c) done) /\
  (forall e done, preprocess df = Crashed e done ->
     e = TypeError /\ ~ numeric_runs df).
Proof.
  assert (Hemb : no_rows df || repeated_label df = false).
  { apply orb_false_iff. split.
    - unfold no_rows. destruct (rows df); congruence.
    - unfold repeated_label. apply not_true_is_false. intros H.
      apply existsb_exists in H. destruct H as [c [Hc Hlt]].
      apply Nat.ltb_lt in Hlt. specialize (Honce c Hc). lia. }
  assert (Hmain : forall e done, preprocess df = Crashed e done ->
                    e = TypeError /\ ~ numeric_runs df).
  { intros e done. unfold preprocess.
    destruct (issubset required_cols df) eqn:Hsub; cbn [negb]; [| discriminate].
    rewrite Hemb.
    rewrite issubset_spec in Hsub.
    destruct (mapM (winner_cell df) (rows df)) as [ws | e1] eqn:Hw.
    - destruct (mapM (margin_cell df) (rows df)) as [ms | e2] eqn:Hm;
        [discriminate |].
      intros H. injection H as <- _.
      apply mapM_raise in Hm. destruct Hm as [r [Hr Hraise]].
      destruct (margin_cell_raises df rect Hsub r e2 Hr Hraise) as [-> Hnot].
      split; [reflexivity |]. intros Hnum. apply Hnot. now apply Hnum.
    - intros H. injection H as <- _.
      apply mapM_raise in Hw. destruct Hw as [r [Hr Hraise]].
      destruct (winner_cell_raises df rect Hsub r e1 Hr Hraise) as [-> Hnot].
      split; [reflexivity |]. intros Hnum. apply Hnot. now apply Hnum. }
  split; [| split; [| exact Hmain]].
  - unfold preprocess.
    destruct (issubset required_cols df); cbn [negb]; [| discriminate].
    rewrite Hemb.
    destruct (mapM (winner_cell df) (rows df)); [| discriminate].
    destruct (mapM (margin_cell df) (rows df)); discriminate.
  - intros c done H. destruct (Hmain _ _ H) as [He _]. discriminate He.
Qed.

Lemma gate_rules_out_key_errors_witness :
  preprocess text_runs_frame = Crashed TypeError (Some [CStr "CSK"%string]) /\
  (numeric_runs text_runs_frame -> False).
Proof.
  destruct (gate_rules_out_key_errors text_runs_frame) as (_ & _ & H).
  - intros r [<- | []]. reflexivity.
  - discriminate.
  - intros c Hc. cbn in Hc.
    destruct Hc as [<- | [<- | [<- | [<- | []]]]]; vm_compute; lia.
  - split; [vm_compute; reflexivity |].
    apply (H TypeError (Some [CStr "CSK"%string])). vm_compute. reflexivity.
Defined.

(** *** The team list *)

Section StringOrder.

Lemma ascii_compare_refl (a : ascii) : Ascii.compare a a = Eq.
Proof. unfold Ascii.compare. apply N.compare_refl. Qed.

Lemma ascii_lt_trans (a b c : ascii) :
  Ascii.compare a b = Lt -> Ascii.compare b c = Lt -> Ascii.compare a c = Lt.
Proof.
  unfold Ascii.compare. rewrite !N.compare_lt_iff. apply N.lt_trans.
Qed.

Lemma string_compare_refl (s : string) : String.compare s s = Eq.
Proof.
  induction s as [| a s IH]; cbn; [reflexivity |].
  now rewrite ascii_compare_refl.
Qed.

Lemma string_lt_irrefl (s : string) : ~ string_lt s s.
Proof. unfold string_lt. rewrite string_compare_refl. discriminate. Qed.

Lemma string_lt_trans (a b c : string) :
  string_lt a b -> string_lt b c -> string_lt a c.
Proof.
  unfold string_lt. revert b c.
  induction a as [| x a IH]; intros [| y b] [| z c]; cbn; try discriminate; auto.
  destruct (Ascii.compare x y) eqn:Hxy; try discriminate;
    destruct (Ascii.compare y z) eqn:Hyz; try discriminate; intros H1 H2.
  - apply Ascii.compare_eq_iff in Hxy, Hyz. subst.
    rewrite ascii_compare_refl. eapply IH; eassumption.
  - apply Ascii.compare_eq_iff in Hxy. subst. now rewrite Hyz.
  - apply Ascii.compare_eq_iff in Hyz. subst. now rewrite Hxy.
  - now rewrite (ascii_lt_trans x y z Hxy Hyz).
Qed.

Lemma string_gt_lt (a b : string) : String.compare a b = Gt -> string_lt b a.
Proof.
  unfold string_lt. intros H. rewrite String.compare_antisym, H. reflexivity.
Qed.

Lemma insert_uniq_In (s x : string) (l : list string) :
  In x (insert_uniq s l) <-> x = s \/ In x l.
Proof.
  induction l as [| y l IH]; cbn; [intuition |].
  destruct (String.compare s y) eqn:Hc; cbn.
  - apply String.compare_eq_iff in Hc. subst. intuition.
  - intuition.
  - rewrite IH. intuition.
Qed.

Lemma insert_uniq_sorted (s : string) (l : list string) :
  StronglySorted string_lt l -> StronglySorted string_lt (insert_uniq s l).
Proof.
  induction 1 as [| y l Hs IH Hy]; cbn; [repeat constructor |].
  destruct (String.compare s y) eqn:Hc.
  - now constructor.
  - constructor; [now constructor |].
    constructor; [exact Hc |].
    eapply Forall_impl; [| exact Hy]. intros z Hz.
    eapply string_lt_trans; [exact Hc | exact Hz].
  - constructor; [exact IH |].
    apply Forall_forall. intros z Hz. apply insert_uniq_In in Hz.
    destruct Hz as [-> | Hz]; [now apply string_gt_lt |].
    rewrite Forall_forall in Hy. now apply Hy.
Qed.

Lemma sorted_set_sorted (l : list string) : StronglySorted string_lt (sorted_set l).
Proof.
  induction l as [| s l IH]; cbn; [constructor | now apply insert_uniq_sorted].
Qed.

Lemma sorted_set_In (l : list string) (x : string) : In x (sorted_set l) <-> In x l.
Proof.
  induction l as [| s l IH]; cbn; [tauto |].
  rewrite insert_uniq_In, IH. intuition.
Qed.

Lemma strictly_sorted_NoDup (l : list string) :
  StronglySorted string_lt l -> NoDup l.
Proof.
  induction 1 as [| x l Hs IH Hx]; constructor; [| exact IH].
  intros Hin. rewrite Forall_forall in Hx.
  exact (string_lt_irrefl x (Hx x Hin)).
Qed.

(** An ascending list without repetition is determined by its members. *)
Lemma strictly_sorted_unique (l1 : list string) :
  forall l2, StronglySorted string_lt l1 -> StronglySorted string_lt l2 ->
             (forall x, In x l1 <-> In x l2) -> l1 = l2.
Proof.
  induction l1 as [| x1 l1 IH]; intros [| x2 l2] H1 H2 Hmem.
  - reflexivity.
  - exfalso. apply (proj2 (Hmem x2)). now left.
  - exfalso. apply (proj1 (Hmem x1)). now left.
  - apply StronglySorted_inv in H1, H2.
    destruct H1 as [Hs1 Hx1], H2 as [Hs2 Hx2].
    rewrite Forall_forall in Hx1, Hx2.
    assert (Heq : x1 = x2).
    { destruct (proj1 (Hmem x1) (or_introl eq_refl)) as [E | Hin1]; [now symmetry |].
      destruct (proj2 (Hmem x2) (or_introl eq_refl)) as [E | Hin2]; [exact E |].
      exfalso. apply (string_lt_irrefl x1).
      eapply string_lt_trans; [apply Hx1 | apply Hx2]; assumption. }
    subst x2. f_equal. apply IH; try assumption.
    intros y. split; intros Hy.
    + destruct (proj1 (Hmem y) (or_intror Hy)) as [E | Hin]; [| exact Hin].
      subst y. exfalso. exact (string_lt_irrefl x1 (Hx1 x1 Hy)).
    + destruct (proj2 (Hmem y) (or_intror Hy)) as [E | Hin]; [| exact Hin].
      subst y. exfalso. exact (string_lt_irrefl x1 (Hx2 x1 Hy)).
Qed.

End StringOrder.

Lemma teams_In (df : list MatchRecord) (t : string) :
  In t (teams df) <-> exists r, In r df /\ (team1 r = t \/ team2 r = t).
Proof.
  unfold teams. rewrite sorted_set_In, in_app_iff, !in_map_iff.
  split.
  - intros [[r [E Hr]] | [r [E Hr]]]; exists r; auto.
  - intros [r [Hr [E | E]]]; [left | right]; exists r; auto.
Qed.

(** X3.  The team list of the sidebar is in strictly ascending order,
    hence without repetition; it holds exactly the names that occur as
    [team1] or [team2] of some row; and it is the only ascending list of
    those names, whatever order the set was built in. *)
Theorem teams_sorted_and_complete (df : list MatchRecord) :
  StronglySorted string_lt (teams df) /\
  NoDup (teams df) /\
  (forall t, In t (teams df) <->
             exists r, In r df /\ (team1 r = t \/ team2 r = t)) /\
  (forall l, StronglySorted string_lt l ->
             (forall t, In t l <-> exists r, In r df /\ (team1 r = t \/ team2 r = t)) ->
             l = teams df).
Proof.
  assert (Hs : StronglySorted string_lt (teams df)) by apply sorted_set_sorted.
  repeat split; try exact Hs.
  - now apply strictly_sorted_NoDup.
  - now apply teams_In.
  - now apply teams_In.
  - intros l Hl Hmem. apply strictly_sorted_unique; try assumption.
    intros x. rewrite Hmem, teams_In. reflexivity.
Qed.

Example teams_sample : teams sample_matches = ["CSK"; "MI"; "RCB"]%string.
Proof. reflexivity. Qed.

(** *** The three metrics *)

Lemma wrap64_add_l (a b : Z) : wrap64 (wrap64 a + b) = wrap64 (a + b).
Proof.
  unfold wrap64. f_equal.
  replace ((a + 2 ^ 63) mod 2 ^ 64 - 2 ^ 63 + b + 2 ^ 63)
    with ((a + 2 ^ 63) mod 2 ^ 64 + b) by ring.
  rewrite Zplus_mod_idemp_l. f_equal. ring.
Qed.

Lemma fold_add64 (l : list Z) (acc : Z) :
  fold_left add64 l (wrap64 acc) = wrap64 (acc + Zsum l).
Proof.
  revert acc. induction l as [| x l IH]; intros acc; cbn [fold_left Zsum].
  - now rewrite Z.add_0_r.
  - unfold add64 at 2. rewrite wrap64_add_l, IH. f_equal. ring.
Qed.

Lemma fold_Zmax_spec (l : list Z) :
  forall x, In (fold_left Z.max l x) (x :: l) /\
            forall y, In y (x :: l) -> y <= fold_left Z.max l x.
Proof.
  induction l as [| z l IH]; intros x; cbn [fold_left].
  - split; [now left |]. intros y [<- | []]. lia.
  - destruct (IH (Z.max x z)) as [Hin Hub]. split.
    + destruct Hin as [Hin | Hin]; [| right; now right].
      rewrite <- Hin. destruct (Z.max_spec x z) as [[_ ->] | [_ ->]];
        [right; now left | now left].
    + intros y [<- | [<- | Hy]].
      * specialize (Hub (Z.max x z) (or_introl eq_refl)). lia.
      * specialize (Hub (Z.max x z) (or_introl eq_refl)). lia.
      * apply Hub. now right.
Qed.

Lemma Zsum_bounds (l : list Z) (h : Z) :
  (forall x, In x l -> 0 <= x <= h) ->
  0 <= Zsum l <= Z.of_nat (List.length l) * h /\
  forall x, In x l -> x <= Zsum l.
Proof.
  induction l as [| y l IH]; intros H.
  - cbn. split; [lia | intros x []].
  - destruct IH as [[IH1 IH2] IH3]; [intros; apply H; now right |].
    pose proof (H y (or_introl eq_refl)) as Hy.
    cbn [Zsum List.length]. rewrite Nat2Z.inj_succ. split; [nia |].
    intros x [<- | Hx]; [lia |]. specialize (IH3 x Hx). lia.
Qed.

(** X4.  The total shown is the sum of the series reduced to 64 bits.  The
    highest score is a score of the series and no score exceeds it; it is
    missing on the empty series only.  For non-negative scores whose sum
    fits the column the total is exact and lies between the highest score
    and the number of matches times the highest score. *)
Theorem metrics_of_a_series (s : list Observation) :
  total_runs s = wrap64 (Zsum (map team_runs s)) /\
  (highest_score s = None <-> s = []) /\
  (forall h, highest_score s = Some h ->
     (exists o, In o s /\ team_runs o = h) /\
     (forall o, In o s -> team_runs o <= h) /\
     ((forall o, In o s -> 0 <= team_runs o) ->
      Zsum (map team_runs s) <= int64_max ->
        total_runs s = Zsum (map team_runs s) /\
        h <= total_runs s <= Z.of_nat (matches_played s) * h)).
Proof.
  assert (Htot : total_runs s = wrap64 (Zsum (map team_runs s))).
  { unfold total_runs. change 0 with (wrap64 0) at 1. now rewrite fold_add64. }
  split; [exact Htot |]. split.
  - unfold highest_score. destruct s; cbn; split; congruence.
  - intros h Hh. unfold highest_score in Hh.
    destruct s as [| o0 s]; [discriminate |]. cbn [map] in Hh.
    injection Hh as Hh.
    destruct (fold_Zmax_spec (map team_runs s) (team_runs o0)) as [Hin Hub].
    rewrite Hh in Hin, Hub. change (team_runs o0 :: map team_runs s)
      with (map team_runs (o0 :: s)) in Hin, Hub.
    assert (Hle : forall o, In o (o0 :: s) -> team_runs o <= h)
      by (intros o Ho; apply Hub; now apply in_map).
    split; [| split; [exact Hle |]].
    + apply in_map_iff in Hin. destruct Hin as [o [E Ho]]. now exists o.
    + intros Hnn Hfit.
      destruct (Zsum_bounds (map team_runs (o0 :: s)) h) as [[Hs0 Hs1] Hs2].
      { intros x Hx. apply in_map_iff in Hx. destruct Hx as [o [<- Ho]].
        split; [now apply Hnn | now apply Hle]. }
      rewrite length_map in Hs1.
      assert (Hexact : total_runs (o0 :: s) = Zsum (map team_runs (o0 :: s))).
      { rewrite Htot. apply wrap64_id.
        unfold in_int64, int64_min, int64_max in *. lia. }
      rewrite Hexact. unfold matches_played. repeat split; try assumption.
      now apply Hs2.
Qed.

Example metrics_sample :
  matches_played venue_series = 3%nat /\
  total_runs venue_series = 530 /\
  highest_score venue_series = Some 200.
Proof. repeat split. Qed.

(** X5.  Every team the sidebar offers has played: whichever team of the
    list is selected, its series is not empty, so "Matches Played" is at
    least 1 and "Highest Score" is a number. *)
Theorem listed_team_has_matches
    (sort_values : list Observation -> list Observation)
    (sort_ok : sort_contract sort_values)
    (df : list MatchRecord) (t : string)
    (Ht : In t (teams df)) :
  (1 <= matches_played (team_df sort_values df t))%nat /\
  exists h, highest_score (team_df sort_values df t) = Some h.
Proof.
  apply teams_In in Ht. destruct Ht as [r [Hr Ht]].
  assert (Hin : In (observe t r) (team_df sort_values df t)).
  { apply (team_df_In _ sort_ok). exists r. auto. }
  unfold matches_played, highest_score.
  destruct (team_df sort_values df t) as [| o l]; [destruct Hin |].
  cbn. split; [lia | eauto].
Qed.

Lemma listed_team_has_matches_witness :
  (1 <= matches_played (team_df sort_stable sample_matches "RCB"))%nat.
Proof.
  apply (listed_team_has_matches sort_stable sort_stable_contract
           sample_matches "RCB").
  cbn. tauto.
Defined.

(** *** The rolling average stays within the scores *)

Lemma roll_loop_length (w minp : nat) (values : list Q) (n : nat) :
  forall i st, List.length (roll_loop w minp values i n st) = n.
Proof.
  induction n as [| n IH]; intros i st; cbn; [reflexivity | now rewrite IH].
Qed.

Lemma slice_In {A : Type} (l : list A) (a b : nat) (x : A) :
  In x (slice l a b) -> In x l.
Proof.
  unfold slice. intros H.
  rewrite <- (firstn_skipn a l). apply in_or_app. right.
  rewrite <- (firstn_skipn (b - a) (skipn a l)). apply in_or_app. now left.
Qed.

Lemma Qsum_between (l : list Q) (lo hi : Q) :
  (forall x, In x l -> lo <= x <= hi)%Q ->
  (Qlen l * lo <= Qsum l <= Qlen l * hi)%Q.
Proof.
  induction l as [| x l IH]; intros H.
  - rewrite Qlen_nil. cbn [Qsum]. split; Lqa.lra.
  - destruct IH as [IH1 IH2]; [intros; apply H; now right |].
    destruct (H x (or_introl eq_refl)) as [Hx1 Hx2].
    rewrite Qlen_cons. cbn [Qsum]. split; Lqa.lra.
Qed.

(** X6.  The rolling-average column has one entry per row of the series,
    and every entry that is a number lies between the lowest and the
    highest score of the series: smoothing never leaves the range of the
    data (in particular it never exceeds the "Highest Score"). *)
Theorem rolling_avg_within_scores (s : list Observation) (lo hi : Z)
    (Hb : forall o, In o s -> lo <= team_runs o <= hi) :
  List.length (rolling_avg s) = List.length s /\
  forall i q, nth_error (rolling_avg s) i = Some (Some q) ->
              (inject_Z lo <= q <= inject_Z hi)%Q.
Proof.
  assert (Hlen : List.length (rolling_avg s) = List.length s).
  { unfold rolling_avg, rolling_mean.
    now rewrite roll_loop_length, runs_column_length. }
  split; [exact Hlen |].
  intros i q Hq.
  assert (Hi : (i < List.length s)%nat).
  { rewrite <- Hlen. apply nth_error_Some. congruence. }
  destruct (roll_loop_nth 5 (runs_column s) ltac:(lia) 5
              (List.length (runs_column s)) 0 roll_init i)
    as [st [Hnth [Hnobs Hsum]]];
    [lia | now left | rewrite runs_column_length; lia |].
  unfold rolling_avg, rolling_mean in Hq. rewrite Hnth in Hq.
  cbn [Nat.add] in Hnobs, Hsum.
  unfold calc_mean in Hq.
  destruct ((5 <=? nobs st)%nat && (0 <? nobs st)%nat) eqn:Hc; [| discriminate].
  injection Hq as <-.
  apply andb_true_iff in Hc. destruct Hc as [Hc _]. apply Nat.leb_le in Hc.
  unfold win_end, win_start in Hnobs, Hsum.
  assert (Hn5 : nobs st = 5%nat) by lia.
  set (win := slice (runs_column s) (i + 1 - 5) (i + 1)) in *.
  assert (Hwl : (Qlen win == 5)%Q).
  { unfold Qlen, win. rewrite slice_length by (rewrite runs_column_length; lia).
    replace (i + 1 - (i + 1 - 5))%nat with 5%nat by lia. reflexivity. }
  destruct (Qsum_between win (inject_Z lo) (inject_Z hi)) as [H1 H2].
  { intros x Hx. apply slice_In in Hx. unfold runs_column in Hx.
    apply in_map_iff in Hx. destruct Hx as [o [<- Ho]].
    destruct (Hb o Ho). rewrite <- !Zle_Qle. split; assumption. }
  rewrite Hwl in H1, H2. rewrite Hn5, Hsum.
  change (inject_Z (Z.of_nat 5)) with 5%Q.
  split.
  - apply Qle_shift_div_l; [reflexivity | Lqa.lra].
  - apply Qle_shift_div_r; [reflexivity | Lqa.lra].
Qed.

Lemma rolling_avg_within_scores_witness :
  List.length (rolling_avg (series_of [10; 20; 30; 40; 50; 60])) = 6%nat.
Proof.
  apply (rolling_avg_within_scores (series_of [10; 20; 30; 40; 50; 60]) 10 60).
  intros o Ho. cbn in Ho.
  repeat (destruct Ho as [<- | Ho]; [cbn; lia |]). destruct Ho.
Defined.

(** *** Sorting by a comparison *)

Lemma StronglySorted_weaken {A : Type} (R R' : A -> A -> Prop) (l : list A) :
  (forall a b, R a b -> R' a b) -> StronglySorted R l -> StronglySorted R' l.
Proof.
  intros Himp. induction 1 as [| x l Hs IH Hx]; constructor; [exact IH |].
  eapply Forall_impl; [| exact Hx]. intros a. apply Himp.
Qed.

Section InsertionSortBy.

Context {A : Type}.
Variable leb : A -> A -> bool.
Hypothesis leb_total : forall a b, leb a b = true \/ leb b a = true.
Hypothesis leb_trans : forall a b c, leb a b = true -> leb b c = true -> leb a c = true.

Lemma insert_by_perm (a : A) (l : list A) : Permutation (insert_by leb a l) (a :: l).
Proof.
  induction l as [| x l IH]; cbn; [reflexivity |].
  destruct (leb a x); [reflexivity |]. rewrite IH. apply perm_swap.
Qed.

Lemma insert_by_sorted (a : A) (l : list A) :
  StronglySorted (fun x y => leb x y = true) l ->
  StronglySorted (fun x y => leb x y = true) (insert_by leb a l).
Proof.
  induction 1 as [| x l Hs IH Hx]; cbn; [repeat constructor |].
  destruct (leb a x) eqn:Hax.
  - constructor; [now constructor |].
    constructor; [exact Hax |].
    eapply Forall_impl; [| exact Hx]. intros y Hy. now apply (leb_trans a x y).
  - constructor; [exact IH |].
    eapply Permutation_Forall; [symmetry; apply insert_by_perm |].
    constructor; [| exact Hx].
    destruct (leb_total a x) as [H | H]; [congruence | exact H].
Qed.

Lemma isort_by_contract (l : list A) :
  Permutation (isort_by leb l) l /\
  StronglySorted (fun x y => leb x y = true) (isort_by leb l).
Proof.
  induction l as [| a l [IHp IHs]]; cbn.
  - split; constructor.
  - split; [rewrite insert_by_perm; now constructor | now apply insert_by_sorted].
Qed.

End InsertionSortBy.

Lemma sort_desc_meets_contract : sort_desc_contract sort_desc.
Proof.
  intros l. unfold sort_desc.
  destruct (isort_by_contract (fun a b : string * Q => Qle_bool (snd b) (snd a))) with (l := l)
    as [Hp Hs].
  - intros a b. rewrite !Qle_bool_iff.
    destruct (Qlt_le_dec (snd a) (snd b)); [right; now apply Qlt_le_weak | now left].
  - intros a b c. rewrite !Qle_bool_iff. intros H1 H2.
    eapply Qle_trans; eassumption.
  - split; [exact Hp |].
    eapply StronglySorted_weaken; [| exact Hs].
    intros a b. cbn. unfold descending. now rewrite Qle_bool_iff.
Qed.

(** *** Average runs by venue *)

Lemma Qsum_perm (l l' : list Q) : Permutation l l' -> (Qsum l == Qsum l')%Q.
Proof.
  induction 1; cbn; Lqa.lra.
Qed.

Lemma at_venue_cons (v : string) (o : Observation) (s : list Observation) :
  at_venue v (o :: s)
  = if String.eqb (obs_venue o) v then o :: at_venue v s else at_venue v s.
Proof. reflexivity. Qed.

Section VenuePartition.

Local Open Scope Q_scope.

(** The sum over the venues [ks] of the runs scored at each. *)
Let by_venue (ks : list string) (s : list Observation) : Q :=
  Qsum (map (fun v => Qsum (runs_column (at_venue v s))) ks).

Lemma by_venue_other (ks : list string) (o : Observation) (s : list Observation) :
  ~ In (obs_venue o) ks -> by_venue ks (o :: s) == by_venue ks s.
Proof.
  unfold by_venue. induction ks as [| k ks IH]; intros Hnot; cbn [map Qsum];
    [reflexivity |].
  rewrite at_venue_cons.
  destruct (String.eqb_spec (obs_venue o) k) as [E | _].
  - exfalso. apply Hnot. now left.
  - rewrite IH; [reflexivity |]. intros H. apply Hnot. now right.
Qed.

Lemma by_venue_own (ks : list string) (o : Observation) (s : list Observation) :
  NoDup ks -> In (obs_venue o) ks ->
  by_venue ks (o :: s) == inject_Z (team_runs o) + by_venue ks s.
Proof.
  unfold by_venue. induction ks as [| k ks IH]; intros Hnd Hin; [destruct Hin |].
  apply NoDup_cons_iff in Hnd. destruct Hnd as [Hk Hnd].
  cbn [map Qsum]. rewrite at_venue_cons.
  destruct (String.eqb_spec (obs_venue o) k) as [E | Hne].
  - fold (by_venue ks (o :: s)). fold (by_venue ks s).
    rewrite by_venue_other by (rewrite E; exact Hk).
    cbn [runs_column map Qsum]. fold (runs_column (at_venue k s)). ring.
  - destruct Hin as [E | Hin]; [congruence |].
    rewrite IH by assumption. ring.
Qed.

Lemma by_venue_nil (ks : list string) : by_venue ks [] == 0.
Proof.
  unfold by_venue. induction ks as [| k ks IH]; cbn [map Qsum]; [reflexivity |].
  rewrite IH. cbn. ring.
Qed.

(** Venue by venue, the runs add up to the runs of the series. *)
Lemma venues_partition (ks : list string) (s : list Observation) :
  NoDup ks -> (forall o, In o s -> In (obs_venue o) ks) ->
  Qsum (map (fun v => Qsum (runs_column (at_venue v s))) ks)
  == Qsum (runs_column s).
Proof.
  intros Hnd. fold (by_venue ks s).
  induction s as [| o s IH]; intros Hcov.
  - apply by_venue_nil.
  - rewrite by_venue_own; [| exact Hnd | apply Hcov; now left].
    rewrite IH by (intros; apply Hcov; now right). reflexivity.
Qed.

Lemma Qlen_times_mean (l : list Q) : Qlen l * Qmean l == Qsum l.
Proof.
  destruct l as [| x l].
  - rewrite Qlen_nil. cbn [Qsum]. ring.
  - rewrite Qmean_Qlen. field. apply Qlen_nonzero. discriminate.
Qed.

End VenuePartition.

Lemma groupby_mean_keys (s : list Observation) :
  map fst (groupby_mean s) = sorted_set (map obs_venue s).
Proof.
  unfold groupby_mean. rewrite map_map. cbn. apply map_id.
Qed.

Lemma groupby_mean_In (s : list Observation) (v : string) (m : Q) :
  In (v, m) (groupby_mean s) ->
  (exists o, In o s /\ obs_venue o = v) /\
  m = Qmean (runs_column (at_venue v s)).
Proof.
  unfold groupby_mean. rewrite in_map_iff. intros [k [E Hk]].
  injection E as -> <-. split; [| reflexivity].
  apply sorted_set_In, in_map_iff in Hk. destruct Hk as [o [E Ho]]. now exists o.
Qed.

Lemma at_venue_nonempty (s : list Observation) (o : Observation) :
  In o s -> at_venue (obs_venue o) s <> [].
Proof.
  intros Ho H.
  assert (Hin : In o (at_venue (obs_venue o) s)).
  { unfold at_venue. apply filter_In. split; [exact Ho | apply String.eqb_refl]. }
  rewrite H in Hin. destruct Hin.
Qed.

(** X7.  For every sort that meets the contract of [sort_values], the
    venue table has one entry for each venue of the series and no other;
    the value of a venue is the arithmetic mean of the team's runs in the
    matches played there (at least one); the values are descending; and
    the means, each weighted by the number of matches at its venue, add
    up to the total runs of the series. *)
Theorem venue_avg_groups
    (sort_values : list (string * Q) -> list (string * Q))
    (sort_ok : sort_desc_contract sort_values)
    (s : list Observation) :
  NoDup (map fst (venue_avg sort_values s)) /\
  (forall v, In v (map fst (venue_avg sort_values s)) <->
             exists o, In o s /\ obs_venue o = v) /\
  (forall v m, In (v, m) (venue_avg sort_values s) ->
     at_venue v s <> [] /\ m = Qmean (runs_column (at_venue v s))) /\
  StronglySorted descending (venue_avg sort_values s) /\
  (Qsum (map (fun e => Qlen (at_venue (fst e) s) * snd e) (venue_avg sort_values s))
   == Qsum (runs_column s))%Q.
Proof.
  destruct (sort_ok (groupby_mean s)) as [Hperm Hsorted].
  fold (venue_avg sort_values s) in Hperm, Hsorted.
  assert (Hkeys : Permutation (map fst (venue_avg sort_values s))
                              (sorted_set (map obs_venue s))).
  { rewrite <- groupby_mean_keys. now apply Permutation_map. }
  assert (Hnd : NoDup (sorted_set (map obs_venue s)))
    by apply strictly_sorted_NoDup, sorted_set_sorted.
  split; [| split; [| split; [| split]]].
  - eapply Permutation_NoDup; [symmetry; exact Hkeys | exact Hnd].
  - intros v. split.
    + intros H. apply (Permutation_in _ Hkeys) in H.
      apply sorted_set_In, in_map_iff in H. destruct H as [o [E Ho]]. now exists o.
    + intros [o [Ho E]]. apply (Permutation_in _ (Permutation_sym Hkeys)).
      apply sorted_set_In, in_map_iff. now exists o.
  - intros v m H. apply (Permutation_in _ Hperm) in H.
    apply groupby_mean_In in H. destruct H as [[o [Ho <-]] ->].
    split; [now apply at_venue_nonempty | reflexivity].
  - exact Hsorted.
  - rewrite (Qsum_perm _ _ (Permutation_map _ Hperm)).
    unfold groupby_mean. rewrite map_map. cbn [fst snd].
    assert (Hw : forall ks,
               (Qsum (map (fun x => Qlen (at_venue x s)
                                    * Qmean (runs_column (at_venue x s))) ks)
                == Qsum (map (fun v => Qsum (runs_column (at_venue v s))) ks))%Q).
    { induction ks as [| k ks IH]; cbn [map Qsum]; [reflexivity |].
      rewrite IH. unfold Qlen at 1. rewrite <- (runs_column_length (at_venue k s)).
      fold (Qlen (runs_column (at_venue k s))). rewrite Qlen_times_mean.
      reflexivity. }
    rewrite Hw. apply venues_partition; [exact Hnd |].
    intros o Ho. apply sorted_set_In, in_map. exact Ho.
Qed.

Lemma venue_avg_groups_witness :
  StronglySorted descending (venue_avg sort_desc venue_series).
Proof.
  apply (venue_avg_groups sort_desc sort_desc_meets_contract venue_series).
Defined.

Example venue_avg_sample :
  venue_avg sort_desc venue_series
  = [("Chepauk"%string, ((180 + (200 + 0)) / 2)%Q);
     ("Chinnaswamy"%string, ((150 + 0) / 1)%Q)].
Proof. reflexivity. Qed.

Lemma sorted_set_single (l : list string) (v : string) :
  l <> [] -> (forall x, In x l -> x = v) -> sorted_set l = [v].
Proof.
  intros Hne Hall. apply strictly_sorted_unique.
  - apply sorted_set_sorted.
  - repeat constructor.
  - intros x. rewrite sorted_set_In. split.
    + intros Hx. left. symmetry. now apply Hall.
    + intros [<- | []]. destruct l as [| y l]; [congruence |].
      left. apply Hall. now left.
Qed.

Lemma at_venue_all (s : list Observation) (v : string) :
  (forall o, In o s -> obs_venue o = v) -> at_venue v s = s.
Proof.
  induction s as [| o s IH]; intros H; [reflexivity |].
  rewrite at_venue_cons, (H o (or_introl eq_refl)), String.eqb_refl.
  f_equal. apply IH. intros; apply H; now right.
Qed.

(** X8.  A series played at a single venue gives a venue table of exactly
    one entry, that venue with the mean of all the team's runs. *)
Theorem single_venue_average
    (sort_values : list (string * Q) -> list (string * Q))
    (sort_ok : sort_desc_contract sort_values)
    (s : list Observation) (v : string)
    (Hne : s <> [])
    (Hall : forall o, In o s -> obs_venue o = v) :
  venue_avg sort_values s = [(v, Qmean (runs_column s))].
Proof.
  unfold venue_avg.
  assert (Hg : groupby_mean s = [(v, Qmean (runs_column s))]).
  { unfold groupby_mean. rewrite (sorted_set_single (map obs_venue s) v).
    - cbn. now rewrite at_venue_all.
    - destruct s; [congruence | discriminate].
    - intros x Hx. apply in_map_iff in Hx. destruct Hx as [o [<- Ho]].
      now apply Hall. }
  rewrite Hg. destruct (sort_ok [(v, Qmean (runs_column s))]) as [Hp _].
  apply Permutation_sym, Permutation_length_1_inv in Hp. exact Hp.
Qed.

Lemma single_venue_average_witness :
  venue_avg sort_desc (series_of [150; 170])
  = [("Chepauk"%string, Qmean (runs_column (series_of [150; 170])))].
Proof.
  apply (single_venue_average sort_desc sort_desc_meets_contract).
  - discriminate.
  - intros o [<- | [<- | []]]; reflexivity.
Defined.

(** *** The trend of an exactly linear series *)

Section LinearSeries.

Local Open Scope Q_scope.

Lemma sse_nonneg (a b : Q) (X y : list Q) : 0 <= sse a b X y.
Proof.
  revert y. induction X as [| x X IH]; intros [| v y]; cbn [sse]; try apply Qle_refl.
  specialize (IH y). pose proof (Qsquare_nonneg (v - (a + b * x))). Lqa.lra.
Qed.

Lemma sse_zero_on_line (a b : Q) (l : list Observation) :
  forall start : nat,
    (forall i o, nth_error l i = Some o ->
       inject_Z (team_runs o) == a + b * inject_Z (Z.of_nat (start + i))) ->
    sse a b (map (fun i => inject_Z (Z.of_nat i)) (seq start (List.length l)))
            (runs_column l) == 0.
Proof.
  induction l as [| o l IH]; intros start H; [reflexivity |].
  cbn [List.length seq map runs_column sse]. fold (runs_column l).
  rewrite (IH (S start)).
  - rewrite (H 0%nat o eq_refl), Nat.add_0_r. ring.
  - intros i o' Hi. rewrite (H (S i) o' Hi).
    now replace (start + S i)%nat with (S start + i)%nat by lia.
Qed.

End LinearSeries.

(** X12.  On a series of five or more observations that lie exactly on a
    line, [team_runs = a + b * index], the prediction is the next point of
    that line, [a + b * n]; in particular a constant series predicts its
    constant. *)
Theorem linear_series_is_extended (s : list Observation) (a b : Q)
    (Hn : (5 <= List.length s)%nat)
    (Hline : forall i o, nth_error s i = Some o ->
               (inject_Z (team_runs o) == a + b * inject_Z (Z.of_nat i))%Q) :
  exists p, predict_next s = Some p /\
            (p == a + b * inject_Z (Z.of_nat (List.length s)))%Q.
Proof.
  set (m := fit (arange (List.length s)) (runs_column s)).
  exists (predict m (inject_Z (Z.of_nat (List.length s)))). split.
  - unfold predict_next. destruct (Nat.leb_spec 5 (List.length s)); [reflexivity | lia].
  - destruct (fit_normal_equations (arange (List.length s)) (runs_column s))
      as [H1 H2].
    + now rewrite arange_length, runs_column_length.
    + apply Qlen_nonzero. intros H. apply (f_equal (@List.length _)) in H.
      rewrite arange_length in H. cbn in H. lia.
    + apply arange_spread. lia.
    + fold m in H1, H2.
      assert (Hls : least_squares_line (arange (List.length s)) (runs_column s) a b).
      { intros a' b'. unfold arange. rewrite (sse_zero_on_line a b s 0 Hline).
        apply sse_nonneg. }
      assert (Hab : (a == intercept_ m /\ b == coef_ m)%Q).
      { destruct s as [| o0 [| o1 s']]; cbn [List.length] in Hn; try lia.
        cbn [List.length] in *. rewrite arange_two in *.
        cbn [runs_column map] in *.
        eapply least_squares_unique; eassumption. }
      destruct Hab as [Ha Hb]. unfold predict. rewrite Ha, Hb. ring.
Qed.

Lemma linear_series_is_extended_witness :
  exists p, predict_next (series_of [180; 170; 160; 150; 140]) = Some p /\
            (p == 130)%Q.
Proof.
  destruct (linear_series_is_extended (series_of [180; 170; 160; 150; 140])
              180 (- (10))%Q) as [p [Hp Hv]].
  - cbn. lia.
  - intros i o Hi.
    do 5 (destruct i as [| i]; [injection Hi as <-; vm_compute; reflexivity |]).
    destruct i; discriminate.
  - exists p. split; [exact Hp |]. rewrite Hv. vm_compute. reflexivity.
Defined.

(** *** The range of the scores *)

Section ScoreRange.

Local Open Scope Q_scope.

Lemma ratio_in_unit (x r : Q) : 0 <= x -> x <= r -> 0 < r -> 0 <= x / r <= 1.
Proof.
  intros H0 Hr Hpos. split.
  - apply Qle_shift_div_l; [exact Hpos | Lqa.lra].
  - apply Qle_shift_div_r; [exact Hpos | Lqa.lra].
Qed.

Variable players : list PlayerRecord.

Lemma max_column_bounds (f : PlayerRecord -> Q) :
  (exists q, In q players /\ 0 < f q) ->
  exists r, col_max (map f players) = Fin r /\ 0 < r /\
            forall q, In q players -> f q <= r.
Proof.
  intros [q [Hq Hpos]].
  destruct (col_max_spec (map f players)) as [r [Hr [_ Hub]]].
  { intros H. apply (in_map f) in Hq. rewrite H in Hq. destruct Hq. }
  exists r. split; [exact Hr |]. split.
  - eapply Qlt_le_trans; [exact Hpos | apply Hub; now apply in_map].
  - intros q' Hq'. apply Hub. now apply in_map.
Qed.

Lemma min_column_bounds (f : PlayerRecord -> Q) (p : PlayerRecord) :
  In p players -> (forall q, In q players -> 0 <= f q) ->
  exists r, col_min (map f players) = Fin r /\ 0 <= r /\ r <= f p.
Proof.
  intros Hp Hnn.
  destruct (col_min_spec (map f players)) as [r [Hr [Hin Hlb]]].
  { intros H. apply (in_map f) in Hp. rewrite H in Hp. destruct Hp. }
  exists r. split; [exact Hr |]. split.
  - apply in_map_iff in Hin. destruct Hin as [q [<- Hq]]. now apply Hnn.
  - apply Hlb. now apply in_map.
Qed.

End ScoreRange.

(** X13.  In a table of non-negative values in which some player has
    runs, some a strike rate and some a wicket, every player with a
    positive economy has all three scores in the interval from 0 to 1. *)
Theorem scores_between_zero_and_one (players : list PlayerRecord) (p : PlayerRecord)
    (p_in : In p players)
    (table_non_negative : forall q, In q players -> non_negative q)
    (some_runs : exists q, In q players /\ (0 < runs q)%Q)
    (some_strike_rate : exists q, In q players /\ (0 < strike_rate q)%Q)
    (some_wickets : exists q, In q players /\ (0 < wickets q)%Q)
    (economy_pos : (0 < economy p)%Q) :
  exists b c k : Q,
    bat_score players p = Fin b /\ bowl_score players p = Fin c /\
    performance_index players p = Fin k /\
    (0 <= b <= 1)%Q /\ (0 <= c <= 1)%Q /\ (0 <= k <= 1)%Q.
Proof.
  destruct (max_column_bounds players runs some_runs) as [mr [Hmr [Hmr0 Hmr1]]].
  destruct (max_column_bounds players strike_rate some_strike_rate)
    as [ms [Hms [Hms0 Hms1]]].
  destruct (max_column_bounds players wickets some_wickets) as [mw [Hmw [Hmw0 Hmw1]]].
  destruct (min_column_bounds players economy p p_in) as [me [Hme [Hme0 Hme1]]].
  { intros q Hq. apply (table_non_negative q Hq). }
  destruct (table_non_negative p p_in) as (Hr & Hw & Hs & He).
  pose proof (bat_score_value players p mr ms Hmr Hmr0 Hms Hms0) as Hbat.
  pose proof (bowl_score_value players p mw me Hmw Hmw0 Hme economy_pos) as Hbowl.
  pose proof (performance_index_value players p _ _ Hbat Hbowl) as Hperf.
  destruct (ratio_in_unit (runs p) mr Hr (Hmr1 p p_in) Hmr0) as [A1 A2].
  destruct (ratio_in_unit (strike_rate p) ms Hs (Hms1 p p_in) Hms0) as [B1 B2].
  destruct (ratio_in_unit (wickets p) mw Hw (Hmw1 p p_in) Hmw0) as [C1 C2].
  destruct (ratio_in_unit me (economy p) Hme0 Hme1 economy_pos) as [D1 D2].
  eexists _, _, _. split; [exact Hbat |]. split; [exact Hbowl |].
  split; [exact Hperf |].
  set (x1 := (runs p / mr)%Q) in *. set (x2 := (strike_rate p / ms)%Q) in *.
  set (x3 := (wickets p / mw)%Q) in *. set (x4 := (me / economy p)%Q) in *.
  assert (Hb : (0 <= x1 * (6 # 10) + x2 * (4 # 10) <= 1)%Q) by (split; Lqa.lra).
  assert (Hc : (0 <= x3 * (7 # 10) + x4 * (3 # 10) <= 1)%Q) by (split; Lqa.lra).
  split; [exact Hb |]. split; [exact Hc |].
  destruct Hb, Hc. split.
  - apply Qle_shift_div_l; [reflexivity | Lqa.lra].
  - apply Qle_shift_div_r; [reflexivity | Lqa.lra].
Qed.

Lemma scores_between_zero_and_one_witness :
  exists b c k : Q,
    bat_score sample_players bumrah = Fin b /\
    bowl_score sample_players bumrah = Fin c /\
    performance_index sample_players bumrah = Fin k /\
    (0 <= b <= 1)%Q /\ (0 <= c <= 1)%Q /\ (0 <= k <= 1)%Q.
Proof.
  apply (scores_between_zero_and_one sample_players bumrah).
  - right. now left.
  - intros q [<- | [<- | []]]; unfold non_negative; cbn; repeat split; discriminate.
  - exists kohli. split; [now left | reflexivity].
  - exists kohli. split; [now left | reflexivity].
  - exists kohli. split; [now left | reflexivity].
  - reflexivity.
Defined.

(** *** The top performers *)

Section Ranking.

Lemma Qle_bool_total (x y : Q) : Qle_bool x y = true \/ Qle_bool y x = true.
Proof.
  rewrite !Qle_bool_iff.
  destruct (Qlt_le_dec x y); [left; now apply Qlt_le_weak | now right].
Qed.

Lemma Qle_bool_trans (x y z : Q) :
  Qle_bool x y = true -> Qle_bool y z = true -> Qle_bool x z = true.
Proof. rewrite !Qle_bool_iff. apply Qle_trans. Qed.

Lemma ranks_before_total (a b : fnum Q) :
  ranks_before a b = true \/ ranks_before b a = true.
Proof.
  destruct a as [x | | |], b as [y | | |]; cbn; auto.
  destruct (Qle_bool_total x y); auto.
Qed.

Lemma ranks_before_trans (a b c : fnum Q) :
  ranks_before a b = true -> ranks_before b c = true -> ranks_before a c = true.
Proof.
  destruct a as [x | | |], b as [y | | |], c as [z | | |]; cbn;
    try congruence; auto.
  intros H1 H2. eapply Qle_bool_trans; eassumption.
Qed.

Lemma ranks_before_nan (b : fnum Q) : ranks_before NaN b = true -> b = NaN.
Proof. destruct b; cbn; congruence. Qed.

Lemma sort_rank_meets_contract (key : PlayerRecord -> fnum Q) :
  rank_contract key (sort_rank key).
Proof.
  intros l. unfold sort_rank.
  apply (isort_by_contract (fun a b => ranks_before (key a) (key b))).
  - intros a b. apply ranks_before_total.
  - intros a b c. apply ranks_before_trans.
Qed.

Lemma StronglySorted_app_inv {A : Type} (R : A -> A -> Prop) (l1 l2 : list A) :
  StronglySorted R (l1 ++ l2) ->
  StronglySorted R l1 /\ forall a b, In a l1 -> In b l2 -> R a b.
Proof.
  induction l1 as [| x l1 IH]; cbn; intros H.
  - split; [constructor | intros a b []].
  - apply StronglySorted_inv in H. destruct H as [Hs Hx].
    destruct (IH Hs) as [IH1 IH2]. rewrite Forall_forall in Hx. split.
    + constructor; [exact IH1 |]. apply Forall_forall. intros y Hy.
      apply Hx. apply in_or_app. now left.
    + intros a b [<- | Ha] Hb; [apply Hx, in_or_app; now right | now apply IH2].
Qed.

End Ranking.

(** X14.  For every sort that meets the contract of [sort_values], the
    top performers are [min(5, n)] players of the table, each taken once,
    in descending order of [performance_index]; every player left out
    ranks no higher than any player shown; and a player whose index is
    [NaN] is shown only if the index of every player left out is [NaN]
    too. *)
Theorem top_players_are_the_best
    (sort_values : (PlayerRecord -> fnum Q) -> list PlayerRecord -> list PlayerRecord)
    (sort_ok : forall key, rank_contract key (sort_values key))
    (players : list PlayerRecord) :
  List.length (top_players sort_values players)
  = Nat.min 5 (List.length players) /\
  StronglySorted
    (fun a b => ranks_before (performance_index players a)
                             (performance_index players b) = true)
    (top_players sort_values players) /\
  exists rest,
    Permutation (top_players sort_values players ++ rest) players /\
    (forall a b, In a (top_players sort_values players) -> In b rest ->
       ranks_before (performance_index players a)
                    (performance_index players b) = true) /\
    (forall a b, In a (top_players sort_values players) -> In b rest ->
       performance_index players a = NaN -> performance_index players b = NaN).
Proof.
  destruct (sort_ok (performance_index players) players) as [Hperm Hsorted].
  unfold top_players.
  set (sorted := sort_values (performance_index players) players) in *.
  rewrite <- (firstn_skipn 5 sorted) in Hsorted.
  apply StronglySorted_app_inv in Hsorted. destruct Hsorted as [Htop Hcross].
  split; [| split; [exact Htop |]].
  - rewrite length_firstn, (Permutation_length Hperm). reflexivity.
  - exists (skipn 5 sorted). split; [| split].
    + now rewrite firstn_skipn.
    + exact Hcross.
    + intros a b Ha Hb Hnan. specialize (Hcross a b Ha Hb).
      rewrite Hnan in Hcross. now apply ranks_before_nan.
Qed.

Lemma top_players_are_the_best_witness :
  List.length (top_players sort_rank six_players) = 5%nat.
Proof.
  apply (top_players_are_the_best sort_rank sort_rank_meets_contract six_players).
Defined.

Example top_players_sample :
  map player_name (top_players sort_rank six_players)
  = ["Russell"; "Rashid"; "Jadeja"; "Kohli"; "Bumrah"]%string.
Proof. vm_compute. reflexivity. Qed.

(** *** The player comparison *)

Lemma first_row_found (players : list PlayerRecord) (name : string) :
  In name (map player_name players) ->
  exists r before after,
    first_row players name = Some r /\
    players = before ++ r :: after /\
    player_name r = name /\
    forall x, In x before -> player_name x <> name.
Proof.
  unfold first_row.
  induction players as [| q players IH]; intros Hin; [destruct Hin |].
  cbn [filter]. destruct (String.eqb_spec (player_name q) name) as [E | Hne].
  - exists q, [], players. repeat split; auto.
  - destruct Hin as [E | Hin]; [congruence |].
    destruct (IH Hin) as (r & before & after & Hr & Hsplit & Hname & Hfirst).
    exists r, (q :: before), after. repeat split; auto.
    + cbn. now rewrite Hsplit.
    + intros x [<- | Hx]; [exact Hne | now apply Hfirst].
Qed.

Lemma first_row_missing (players : list PlayerRecord) (name : string) :
  ~ In name (map player_name players) -> first_row players name = None.
Proof.
  unfold first_row.
  induction players as [| q players IH]; intros Hnot; [reflexivity |].
  cbn [filter]. destruct (String.eqb_spec (player_name q) name) as [E | Hne].
  - exfalso. apply Hnot. now left.
  - apply IH. intros H. apply Hnot. now right.
Qed.

(** X15.  A name taken from the options of the select boxes always finds
    its row, the first row of the table that carries the name; a name
    that is not among the options finds none ([iloc[0]] raises).  In the
    comparison of two listed names the column of [player2] always holds
    the metrics of [player2]'s row.  When the two names differ (and
    neither is the word "Metric") the table has the three columns
    [Metric], [player1], [player2], each with its own values; when the
    same name is chosen twice it has only two columns, the player's
    appearing once. *)
Theorem comparison_of_listed_players (players : list PlayerRecord)
    (player1 player2 : string)
    (H1 : In player1 (player_options players))
    (H2 : In player2 (player_options players)) :
  (forall name, first_row players name = None
                <-> ~ In name (player_options players)) /\
  exists df1 df2 before1 after1,
    first_row players player1 = Some df1 /\
    first_row players player2 = Some df2 /\
    players = before1 ++ df1 :: after1 /\
    player_name df1 = player1 /\
    (forall x, In x before1 -> player_name x <> player1) /\
    player_name df2 = player2 /\
    compare players player1 player2
    = Some (compare_columns player1 player2 df1 df2) /\
    dict_get (compare_columns player1 player2 df1 df2) player2
    = Some (metrics_of df2) /\
    (player1 <> player2 -> player1 <> "Metric"%string -> player2 <> "Metric"%string ->
       compare_columns player1 player2 df1 df2
       = [("Metric"%string, metric_labels); (player1, metrics_of df1);
          (player2, metrics_of df2)]) /\
    (player1 = player2 -> player1 <> "Metric"%string ->
       compare_columns player1 player2 df1 df2
       = [("Metric"%string, metric_labels); (player1, metrics_of df2)]).
Proof.
  unfold player_options in *. rewrite sorted_set_In in H1, H2.
  split.
  - intros name. unfold player_options. rewrite sorted_set_In. split.
    + intros Hnone Hin.
      destruct (first_row_found players name Hin) as (r & _ & _ & Hr & _).
      congruence.
    + apply first_row_missing.
  - destruct (first_row_found players player1 H1)
      as (df1 & before1 & after1 & Hr1 & Hsplit & Hname1 & Hfirst).
    destruct (first_row_found players player2 H2)
      as (df2 & _ & _ & Hr2 & _ & Hname2 & _).
    exists df1, df2, before1, after1.
    repeat (split; [assumption |]).
    split; [unfold compare; now rewrite Hr1, Hr2 |].
    unfold compare_columns. cbn [dict_set].
    split; [| split].
    + destruct (String.eqb_spec "Metric" player1) as [E1 | N1]; cbn [dict_set dict_get].
      * destruct (String.eqb_spec "Metric" player2) as [E2 | N2]; cbn [dict_get].
        -- now rewrite <- E2, String.eqb_refl.
        -- destruct (String.eqb_spec "Metric" player2); [congruence |].
           now rewrite String.eqb_refl.
      * destruct (String.eqb_spec "Metric" player2) as [E2 | N2]; cbn [dict_get].
        -- now rewrite <- E2, String.eqb_refl.
        -- destruct (String.eqb_spec player1 player2) as [E | N]; cbn [dict_get].
           ++ destruct (String.eqb_spec "Metric" player2); [congruence |].
              destruct (String.eqb_spec player1 player2); [reflexivity | congruence].
           ++ destruct (String.eqb_spec "Metric" player2); [congruence |].
              destruct (String.eqb_spec player1 player2); [congruence |].
              now rewrite String.eqb_refl.
    + intros Hne Hm1 Hm2.
      destruct (String.eqb_spec "Metric" player1); [congruence |]. cbn [dict_set].
      destruct (String.eqb_spec "Metric" player2); [congruence |].
      destruct (String.eqb_spec player1 player2); [congruence | reflexivity].
    + intros Heq Hm1.
      destruct (String.eqb_spec "Metric" player1); [congruence |]. cbn [dict_set].
      destruct (String.eqb_spec "Metric" player2); [congruence |].
      destruct (String.eqb_spec player1 player2); [reflexivity | congruence].
Qed.

Lemma comparison_of_listed_players_witness :
  first_row sample_players "Ghost" = None <->
  ~ In "Ghost"%string (player_options sample_players).
Proof.
  apply (comparison_of_listed_players sample_players "Kohli" "Bumrah").
  - cbn. tauto.
  - cbn. tauto.
Defined.

Example compare_same_player :
  option_map (map fst) (compare sample_players "Kohli" "Kohli")
  = Some ["Metric"; "Kohli"]%string.
Proof. reflexivity. Qed.

(** *** The player tabs and the missing columns *)

Lemma pcolumn_present {A : Type} (pf : player_file) (c : string)
    (field : PlayerRecord -> A) :
  In c (pcolumns pf) -> pcolumn pf c field = Ok (map field (ptable pf)).
Proof.
  intros H. unfold pcolumn.
  replace (existsb (String.eqb c) (pcolumns pf)) with true; [reflexivity |].
  symmetry. apply existsb_exists. exists c. split; [exact H | apply String.eqb_refl].
Qed.

Lemma pcolumn_absent {A : Type} (pf : player_file) (c : string)
    (field : PlayerRecord -> A) :
  ~ In c (pcolumns pf) -> pcolumn pf c field = Raise (KeyError c).
Proof.
  intros H. unfold pcolumn.
  destruct (existsb (String.eqb c) (pcolumns pf)) eqn:E; [| reflexivity].
  apply existsb_exists in E. destruct E as [x [Hx Heq]].
  apply String.eqb_eq in Heq. subst. contradiction.
Qed.

Lemma tab2_missing_In (pf : player_file) (c : string) :
  In c (tab2_missing pf) <-> In c player_required /\ ~ In c (pcolumns pf).
Proof.
  unfold tab2_missing. rewrite filter_In, negb_true_iff. split.
  - intros [Hr He]. split; [exact Hr |]. intros Hin.
    assert (existsb (String.eqb c) (pcolumns pf) = true); [| congruence].
    apply existsb_exists. exists c. split; [exact Hin | apply String.eqb_refl].
  - intros [Hr Hn]. split; [exact Hr |].
    destruct (existsb (String.eqb c) (pcolumns pf)) eqn:E; [| reflexivity].
    apply existsb_exists in E. destruct E as [x [Hx Heq]].
    apply String.eqb_eq in Heq. subst. contradiction.
Qed.

Lemma tab3_completes (pf : player_file) :
  tab2_missing pf = [] ->
  tab3 pf = Ok (combine (map player_name (ptable pf))
                        (map (performance_index (ptable pf)) (ptable pf))).
Proof.
  intros Hnone.
  assert (Hall : forall c, In c player_required -> In c (pcolumns pf)).
  { intros c Hc. destruct (in_dec string_dec c (pcolumns pf)) as [H | H]; [exact H |].
    exfalso. assert (Hin : In c (tab2_missing pf)) by now apply tab2_missing_In.
    rewrite Hnone in Hin. destruct Hin. }
  unfold tab3.
  rewrite !pcolumn_present by (apply Hall; cbn; tauto). reflexivity.
Qed.

Lemma tab3_raises (pf : player_file) :
  tab2_missing pf <> [] ->
  exists c, tab3 pf = Raise (KeyError c) /\ In c (tab2_missing pf).
Proof.
  assert (Hdec : forall c, In c (pcolumns pf) \/ ~ In c (pcolumns pf)).
  { intros c. destruct (in_dec string_dec c (pcolumns pf)); auto. }
  intros Hsome. unfold tab3.
  destruct (Hdec "runs"%string) as [Hr | Hr];
    [rewrite (pcolumn_present pf "runs") by exact Hr
    | rewrite (pcolumn_absent pf "runs") by exact Hr;
      eexists; split; [reflexivity | apply tab2_missing_In; cbn; tauto]].
  destruct (Hdec "strike_rate"%string) as [Hs | Hs];
    [rewrite (pcolumn_present pf "strike_rate") by exact Hs
    | rewrite (pcolumn_absent pf "strike_rate") by exact Hs;
      eexists; split; [reflexivity | apply tab2_missing_In; cbn; tauto]].
  destruct (Hdec "wickets"%string) as [Hw | Hw];
    [rewrite (pcolumn_present pf "wickets") by exact Hw
    | rewrite (pcolumn_absent pf "wickets") by exact Hw;
      eexists; split; [reflexivity | apply tab2_missing_In; cbn; tauto]].
  destruct (Hdec "economy"%string) as [He | He];
    [rewrite (pcolumn_present pf "economy") by exact He
    | rewrite (pcolumn_absent pf "economy") by exact He;
      eexists; split; [reflexivity | apply tab2_missing_In; cbn; tauto]].
  destruct (Hdec "player_name"%string) as [Hp | Hp];
    [rewrite (pcolumn_present pf "player_name") by exact Hp
    | rewrite (pcolumn_absent pf "player_name") by exact Hp;
      eexists; split; [reflexivity | apply tab2_missing_In; cbn; tauto]].
  destruct (Hdec "team"%string) as [Ht | Ht];
    [rewrite (pcolumn_present pf "team") by exact Ht
    | rewrite (pcolumn_absent pf "team") by exact Ht;
      eexists; split; [reflexivity | apply tab2_missing_In; cbn; tauto]].
  exfalso. destruct (tab2_missing pf) as [| c l] eqn:E; [congruence |].
  assert (Hc : In c (tab2_missing pf)) by (rewrite E; now left).
  apply tab2_missing_In in Hc. destruct Hc as [Hreq Hnot].
  cbn in Hreq. intuition (subst; contradiction).
Qed.

(** X16.  The check of the comparison tab reports missing columns but
    does not stop the script, and the top-performers tab runs without a
    check of its own.  With a column missing the comparison is skipped
    and the top-performers tab raises a [KeyError], for a column the
    comparison tab reported.  With every column there the comparison runs
    first: on a file without rows it raises an [IndexError] and the
    top-performers tab is never reached; with two players taken from the
    options of the select boxes the script gets through both tabs and the
    top performers are computed. *)
Theorem top_performers_tab_is_unguarded (pf : player_file) (player1 player2 : string) :
  (tab2_missing pf <> [] ->
     exists c, player_tabs pf player1 player2 = Raise (KeyError c) /\
               In c (tab2_missing pf)) /\
  (tab2_missing pf = [] -> ptable pf = [] ->
     player_tabs pf player1 player2 = Raise IndexError) /\
  (tab2_missing pf = [] ->
   In player1 (player_options (ptable pf)) ->
   In player2 (player_options (ptable pf)) ->
     player_tabs pf player1 player2
     = Ok (combine (map player_name (ptable pf))
                   (map (performance_index (ptable pf)) (ptable pf)))).
Proof.
  split; [| split].
  - intros Hsome. unfold player_tabs.
    destruct (tab2_missing pf) as [| c0 l] eqn:E; [congruence |].
    rewrite <- E. apply tab3_raises. congruence.
  - intros Hnone Hempty. unfold player_tabs. rewrite Hnone, Hempty. reflexivity.
  - intros Hnone H1 H2. unfold player_tabs. rewrite Hnone.
    unfold player_options in H1, H2. rewrite sorted_set_In in H1, H2.
    destruct (first_row_found (ptable pf) player1 H1) as (r1 & _ & _ & Hr1 & _).
    destruct (first_row_found (ptable pf) player2 H2) as (r2 & _ & _ & Hr2 & _).
    unfold compare. rewrite Hr1, Hr2. now apply tab3_completes.
Qed.

Example header_only_file_stops_in_tab2 :
  tab2_missing header_only_file = [] /\
  player_tabs header_only_file "Kohli" "Bumrah" = Raise IndexError.
Proof. split; reflexivity. Qed.

Example sample_file_gets_through :
  exists scores,
    player_tabs (mkPlayerFile player_required sample_players) "Kohli" "Bumrah"
    = Ok scores /\ map fst scores = ["Kohli"; "Bumrah"]%string.
Proof. eexists. split; reflexivity. Qed.

Example tab3_without_wickets :
  tab2_missing file_without_wickets = ["wickets"%string] /\
  tab3 file_without_wickets = Raise (KeyError "wickets").
Proof. split; reflexivity. Qed.

(** *** The column names *)

Section ColumnNames.

Lemma lower_char_idem (c : ascii) : lower_char (lower_char c) = lower_char c.
Proof. destruct c as [[] [] [] [] [] [] [] []]; reflexivity. Qed.

Lemma lower_char_space (c : ascii) : is_space (lower_char c) = is_space c.
Proof. destruct c as [[] [] [] [] [] [] [] []]; reflexivity. Qed.

Lemma lower_char_not_upper (c : ascii) : is_upper (lower_char c) = false.
Proof. destruct c as [[] [] [] [] [] [] [] []]; reflexivity. Qed.

Lemma lower_char_ascii (c : ascii) : is_ascii c = true -> is_ascii (lower_char c) = true.
Proof. destruct c as [[] [] [] [] [] [] [] []]; vm_compute; congruence. Qed.

Lemma lower_idem (s : string) : lower (lower s) = lower s.
Proof.
  induction s as [| c s IH]; cbn; [reflexivity |].
  now rewrite lower_char_idem, IH.
Qed.

Lemma lower_lstrip (s : string) : lstrip (lower s) = lower (lstrip s).
Proof.
  induction s as [| c s IH]; cbn; [reflexivity |].
  rewrite lower_char_space. destruct (is_space c); [exact IH | reflexivity].
Qed.

Lemma lower_rstrip (s : string) : rstrip (lower s) = lower (rstrip s).
Proof.
  induction s as [| c s IH]; cbn; [reflexivity |].
  rewrite IH, lower_char_space.
  destruct (rstrip s); cbn; [destruct (is_space c) |]; reflexivity.
Qed.

Lemma lstrip_idem (s : string) : lstrip (lstrip s) = lstrip s.
Proof.
  induction s as [| c s IH]; cbn; [reflexivity |].
  destruct (is_space c) eqn:E; [exact IH |]. cbn. now rewrite E.
Qed.

Lemma rstrip_idem (s : string) : rstrip (rstrip s) = rstrip s.
Proof.
  induction s as [| c s IH]; cbn; [reflexivity |].
  destruct (rstrip s) as [| d t] eqn:E.
  - destruct (is_space c) eqn:Ec; cbn; [reflexivity | now rewrite Ec].
  - cbn [rstrip]. cbn [rstrip] in IH. rewrite IH. reflexivity.
Qed.

(** Stripping the right end leaves a stripped left end alone. *)
Lemma lstrip_rstrip (s : string) : lstrip s = s -> lstrip (rstrip s) = rstrip s.
Proof.
  destruct s as [| c s]; [reflexivity |]. cbn [lstrip].
  destruct (is_space c) eqn:Ec.
  - intros H. exfalso.
    assert (Hlen : forall t, (String.length (lstrip t) <= String.length t)%nat).
    { induction t as [| d t IHt]; cbn; [lia |]. destruct (is_space d); cbn; lia. }
    specialize (Hlen s). rewrite H in Hlen. cbn in Hlen. lia.
  - intros _. cbn [rstrip].
    destruct (rstrip s); rewrite ?Ec; cbn [lstrip]; now rewrite Ec.
Qed.

Lemma strip_idem (s : string) : strip (strip s) = strip s.
Proof.
  unfold strip. rewrite (lstrip_rstrip (lstrip s) (lstrip_idem s)).
  apply rstrip_idem.
Qed.

Lemma lower_strip (s : string) : strip (lower s) = lower (strip s).
Proof. unfold strip. now rewrite lower_lstrip, lower_rstrip. Qed.

Lemma lstrip_length (s : string) : (String.length (lstrip s) <= String.length s)%nat.
Proof.
  induction s as [| c s IH]; cbn; [lia |]. destruct (is_space c); cbn; lia.
Qed.

Lemma rstrip_length (s : string) : (String.length (rstrip s) <= String.length s)%nat.
Proof.
  induction s as [| c s IH]; cbn; [lia |].
  destruct (rstrip s); [destruct (is_space c) |]; cbn in *; lia.
Qed.

Lemma lower_length (s : string) : String.length (lower s) = String.length s.
Proof. induction s as [| c s IH]; cbn; congruence. Qed.

Lemma lower_no_upper (s : string) : all_chars (fun c => negb (is_upper c)) (lower s) = true.
Proof.
  induction s as [| c s IH]; cbn; [reflexivity |].
  now rewrite lower_char_not_upper, IH.
Qed.

Lemma all_chars_lstrip (p : ascii -> bool) (s : string) :
  all_chars p s = true -> all_chars p (lstrip s) = true.
Proof.
  induction s as [| c s IH]; cbn; [auto |].
  intros H. apply andb_true_iff in H. destruct H as [Hc Hs].
  destruct (is_space c); [now apply IH | cbn; now rewrite Hc, Hs].
Qed.

Lemma all_chars_rstrip (p : ascii -> bool) (s : string) :
  all_chars p s = true -> all_chars p (rstrip s) = true.
Proof.
  induction s as [| c s IH]; cbn; [auto |].
  intros H. apply andb_true_iff in H. destruct H as [Hc Hs].
  specialize (IH Hs).
  destruct (rstrip s); [destruct (is_space c); cbn; now rewrite ?Hc |].
  cbn [all_chars] in *. now rewrite Hc, IH.
Qed.

Lemma all_chars_lower_ascii (s : string) :
  all_chars is_ascii s = true -> all_chars is_ascii (lower s) = true.
Proof.
  induction s as [| c s IH]; cbn [lower all_chars]; [auto |].
  intros H. apply andb_true_iff in H. destruct H as [Hc Hs].
  now rewrite (lower_char_ascii c Hc), IH.
Qed.

End ColumnNames.

(** X17.  Normalising a column name twice is the same as normalising it
    once; a normalised name has no capital letter and no white space at
    either end, is no longer than the original, and is ASCII if the
    original was; and the seven required names are left as they are. *)
Theorem normalize_column_is_canonical (c : string) :
  normalize_column (normalize_column c) = normalize_column c /\
  all_chars (fun ch => negb (is_upper ch)) (normalize_column c) = true /\
  lstrip (normalize_column c) = normalize_column c /\
  rstrip (normalize_column c) = normalize_column c /\
  (String.length (normalize_column c) <= String.length c)%nat /\
  (all_chars is_ascii c = true -> all_chars is_ascii (normalize_column c) = true) /\
  map normalize_column required_cols = required_cols.
Proof.
  unfold normalize_column. repeat split.
  - now rewrite lower_strip, strip_idem, lower_idem.
  - apply lower_no_upper.
  - rewrite lower_lstrip. f_equal. unfold strip.
    apply lstrip_rstrip, lstrip_idem.
  - rewrite lower_rstrip. f_equal. unfold strip. apply rstrip_idem.
  - rewrite lower_length. unfold strip.
    pose proof (rstrip_length (lstrip c)). pose proof (lstrip_length c). lia.
  - intros H. apply all_chars_lower_ascii. unfold strip.
    now apply all_chars_rstrip, all_chars_lstrip.
Qed.

Example normalize_column_sample :
  normalize_column "  Runs_Team1 " = "runs_team1"%string.
Proof. reflexivity. Qed.

(** After line 52 the gate looks for the required names among the
    normalised ones: a header passes when each required name is the
    normal form of one of its columns. *)
Lemma gate_after_normalize (df : frame) :
  issubset required_cols (normalize_columns df) = true
  <-> forall c, In c required_cols ->
                exists h, In h (columns df) /\ normalize_column h = c.
Proof.
  rewrite issubset_spec. cbn [normalize_columns columns].
  split; intros H c Hc.
  - apply H, in_map_iff in Hc. destruct Hc as [h [E Hh]]. now exists h.
  - apply in_map_iff. destruct (H c Hc) as [h [Hh E]]. now exists h.
Qed.
